(** * Elasticsearch bulk visibility processor: model and verified properties

    A shallow embedding of [processorImpl] (package [elasticsearch]) and of
    its acknowledgement tickets ([ackChan]).  The Go methods mutate the
    processor struct, heap-allocated tickets, channels, the logger and the
    metrics client; here they are functions in a state-and-fault monad over
    one record holding all of these. *)

From Stdlib Require Strings.Byte.
From stdpp Require Import base numbers option list strings pretty gmap.

Local Open Scope Z_scope.

(** ** Data model *)

(** Modelled from the spec: the [common.DaemonStatus*] constants are declared
    outside the files at hand; the status is one of Initialized, Started,
    Stopped, and only their being pairwise distinct matters. *)
Inductive DaemonStatus :=
  | DaemonStatusInitialized
  | DaemonStatusStarted
  | DaemonStatusStopped.

#[global] Instance DaemonStatus_eq_dec : EqDecision DaemonStatus.
Proof. solve_decision. Defined.

(** [ackChan]: value of [processorImpl.mapToAckChan].  A channel is named by
    its index in the channel store, an instant by a tick count; the zero
    [time.Time] is tick [0]. *)
Record ackChan := mkAckChan {
  ackChInternal : nat;
  addedAt : nat;
  startedAt : nat
}.

(** A buffered [chan bool]: its capacity, every value sent on it so far (oldest
    first) and how many of them the reader has already taken. *)
Record chanState := mkChan {
  chanCap : nat;
  chanSent : list bool;
  chanRecv : nat
}.

Definition chanBuffered (c : chanState) : nat :=
  (length (chanSent c) - chanRecv c)%nat.

Inductive Metric :=
  | ElasticsearchBulkProcessorRequests
  | ElasticsearchBulkProcessorFailures
  | ElasticsearchBulkProcessorCorruptedData
  | ElasticsearchBulkProcessorRetries
  | ElasticsearchBulkProcessorBulkSize
  | ElasticsearchBulkProcessorWaitLatency
  | ElasticsearchBulkProcessorRequestLatency
  | ElasticsearchBulkProcessorCommitLatency.

#[global] Instance Metric_eq_dec : EqDecision Metric.
Proof. solve_decision. Defined.

(** The metrics client as a recording sink: the four counters, and the timer
    and distribution samples in the order they were recorded. *)
Record metrics_Client := mkMetrics {
  cntRequests : Z;
  cntFailures : Z;
  cntCorruptedData : Z;
  cntRetries : Z;
  samples : list (Metric * Z)
}.

Inductive LogLevel := LogWarn | LogError | LogFatal.

(** [esclient.BulkableRequest], the request type of [Add]; the type is declared
    outside this package and [Add] reads only [ID] (for a log tag). *)
Record esclient_BulkableRequest := mkEsRequest {
  ID : string
}.

(** [elastic.BulkableRequest], the interface the hooks receive: [Source()]
    yields the lines of the bulk action, or an error ([None]). *)
Record elastic_BulkableRequest := mkRequest {
  Source : option (list string)
}.

(** [elastic.ErrorDetails] and [elastic.BulkResponseItem], restricted to the
    fields this package reads. *)
Record ErrorDetails := mkErrorDetails {
  Type_ : string;
  Reason : string
}.

Record BulkResponseItem := mkItem {
  Id : string;
  Status : Z;
  Error : option ErrorDetails
}.

(** [elastic.BulkResponse.Items] is a slice of maps from operation name to
    item; each map is given as its entries in the order [range] visits them. *)
Record BulkResponse := mkResponse {
  Items : list (list (string * BulkResponseItem))
}.

(** A decoded JSON value of static type [interface{}]: the code only asks
    whether its dynamic type is [string]. *)
Inductive JValue :=
  | JString (s : string)
  | JNonString.

(** A map key of static type [interface{}], as [hashFn] receives it. *)
Inductive KeyValue :=
  | KeyString (s : string)
  | KeyOther.

(** [processorImpl] together with the part of the Go runtime it reaches:
    [heap] holds the [ackChan] structs (a [*ackChan] is an index into it),
    [chans] the channels, [clock] drives [time.Now].  [mapToAckChan] and
    [bulkProcessor] are [None] when the Go reference is nil; the bulk
    processor is represented by the requests handed to it, oldest first.
    [doneCalls] is a history variable: the receiver and argument of every call
    of [ackChan.done], oldest first; no operation reads it. *)
Record processorImpl := mkProcessor {
  status : DaemonStatus;
  bulkProcessor : option (list esclient_BulkableRequest);
  mapToAckChan : option (gmap string nat);
  logger : list (LogLevel * string);
  metricsClient : metrics_Client;
  indexerConcurrency : Z;
  heap : list ackChan;
  chans : list chanState;
  clock : nat;
  doneCalls : list (nat * bool)
}.

Definition set_status (x : DaemonStatus) (p : processorImpl) : processorImpl :=
  mkProcessor x (bulkProcessor p) (mapToAckChan p) (logger p) (metricsClient p)
    (indexerConcurrency p) (heap p) (chans p) (clock p) (doneCalls p).

Definition set_bulkProcessor (x : option (list esclient_BulkableRequest))
    (p : processorImpl) : processorImpl :=
  mkProcessor (status p) x (mapToAckChan p) (logger p) (metricsClient p)
    (indexerConcurrency p) (heap p) (chans p) (clock p) (doneCalls p).

Definition set_mapToAckChan (x : option (gmap string nat))
    (p : processorImpl) : processorImpl :=
  mkProcessor (status p) (bulkProcessor p) x (logger p) (metricsClient p)
    (indexerConcurrency p) (heap p) (chans p) (clock p) (doneCalls p).

Definition set_logger (x : list (LogLevel * string))
    (p : processorImpl) : processorImpl :=
  mkProcessor (status p) (bulkProcessor p) (mapToAckChan p) x (metricsClient p)
    (indexerConcurrency p) (heap p) (chans p) (clock p) (doneCalls p).

Definition set_metricsClient (x : metrics_Client)
    (p : processorImpl) : processorImpl :=
  mkProcessor (status p) (bulkProcessor p) (mapToAckChan p) (logger p) x
    (indexerConcurrency p) (heap p) (chans p) (clock p) (doneCalls p).

Definition set_heap (x : list ackChan) (p : processorImpl) : processorImpl :=
  mkProcessor (status p) (bulkProcessor p) (mapToAckChan p) (logger p)
    (metricsClient p) (indexerConcurrency p) x (chans p) (clock p) (doneCalls p).

Definition set_chans (x : list chanState) (p : processorImpl) : processorImpl :=
  mkProcessor (status p) (bulkProcessor p) (mapToAckChan p) (logger p)
    (metricsClient p) (indexerConcurrency p) (heap p) x (clock p) (doneCalls p).

Definition set_clock (x : nat) (p : processorImpl) : processorImpl :=
  mkProcessor (status p) (bulkProcessor p) (mapToAckChan p) (logger p)
    (metricsClient p) (indexerConcurrency p) (heap p) (chans p) x (doneCalls p).

Definition set_doneCalls (x : list (nat * bool))
    (p : processorImpl) : processorImpl :=
  mkProcessor (status p) (bulkProcessor p) (mapToAckChan p) (logger p)
    (metricsClient p) (indexerConcurrency p) (heap p) (chans p) (clock p) x.

(** ** The state-and-fault monad *)

(** How a Go call can fail to return: a runtime panic, [logger.Fatal], or a
    channel operation that cannot proceed. *)
Inductive Fault :=
  | NilDereference
  | TypeAssertion
  | IndexOutOfRange
  | DivideByZero
  | FatalLog
  | Blocked.

Inductive Res (A : Type) :=
  | Ok (a : A) (st : processorImpl)
  | Fail (f : Fault) (st : processorImpl).
Arguments Ok {A} a st.
Arguments Fail {A} f st.

Definition M (A : Type) : Type := processorImpl → Res A.

Definition ret {A} (a : A) : M A := fun st => Ok a st.

Definition bind {A B} (m : M A) (k : A → M B) : M B :=
  fun st => match m st with
            | Ok a st' => k a st'
            | Fail f st' => Fail f st'
            end.

Definition panic {A} (f : Fault) : M A := fun st => Fail f st.

Notation "'let*' x ':=' m 'in' k" := (bind m (fun x => k))
  (at level 10, x binder, m at level 100, k at level 200).
Notation "m '>>>' k" := (bind m (fun _ => k))
  (at level 100, k at level 200, right associativity).

Definition modify (f : processorImpl → processorImpl) : M unit :=
  fun st => Ok tt (f st).

Definition gets {A} (f : processorImpl → A) : M A :=
  fun st => Ok (f st) st.

(** [for _, x := range l { f x }] *)
Fixpoint forEach {A} (f : A → M unit) (l : list A) : M unit :=
  match l with
  | [] => ret tt
  | x :: l' => f x >>> forEach f l'
  end.

(** ** Logger, metrics client, clock, channels, heap *)

Definition logger_log (lvl : LogLevel) (msg : string) : M unit :=
  modify (fun st => set_logger (logger st ++ [(lvl, msg)]) st).

Definition logger_Warn := logger_log LogWarn.
Definition logger_Error := logger_log LogError.

(** [logger.Fatal]: writes the entry and ends the process. *)
Definition logger_Fatal {A} (msg : string) : M A :=
  logger_log LogFatal msg >>> panic FatalLog.

Definition addToCounter (m : Metric) (n : Z) (c : metrics_Client) : metrics_Client :=
  match m with
  | ElasticsearchBulkProcessorRequests =>
      mkMetrics (cntRequests c + n) (cntFailures c) (cntCorruptedData c) (cntRetries c) (samples c)
  | ElasticsearchBulkProcessorFailures =>
      mkMetrics (cntRequests c) (cntFailures c + n) (cntCorruptedData c) (cntRetries c) (samples c)
  | ElasticsearchBulkProcessorCorruptedData =>
      mkMetrics (cntRequests c) (cntFailures c) (cntCorruptedData c + n) (cntRetries c) (samples c)
  | ElasticsearchBulkProcessorRetries =>
      mkMetrics (cntRequests c) (cntFailures c) (cntCorruptedData c) (cntRetries c + n) (samples c)
  | _ => c
  end.

Definition addSample (m : Metric) (v : Z) (c : metrics_Client) : metrics_Client :=
  mkMetrics (cntRequests c) (cntFailures c) (cntCorruptedData c) (cntRetries c)
    (samples c ++ [(m, v)]).

Definition AddCounter (m : Metric) (n : Z) : M unit :=
  modify (fun st => set_metricsClient (addToCounter m n (metricsClient st)) st).

Definition IncCounter (m : Metric) : M unit := AddCounter m 1.

Definition RecordTimer (m : Metric) (d : Z) : M unit :=
  modify (fun st => set_metricsClient (addSample m d (metricsClient st)) st).

Definition RecordDistribution (m : Metric) (n : Z) : M unit :=
  modify (fun st => set_metricsClient (addSample m n (metricsClient st)) st).

(** [time.Now().UTC()]: every reading advances the clock, so no reading is
    the zero instant. *)
Definition time_Now : M nat :=
  fun st => Ok (S (clock st)) (set_clock (S (clock st)) st).

(** [t.Sub(u)] *)
Definition time_Sub (t u : nat) : Z := Z.of_nat t - Z.of_nat u.

(** [make(chan bool, cap)] *)
Definition make_chan (cap : nat) : M nat :=
  fun st => Ok (length (chans st)) (set_chans (chans st ++ [mkChan cap [] 0]) st).

(** [c <- v]: returns at once when the buffer has room, blocks otherwise. *)
Definition chan_send (c : nat) (v : bool) : M unit :=
  fun st => match chans st !! c with
            | None => Fail NilDereference st
            | Some cs =>
                if decide (chanBuffered cs < chanCap cs)%nat
                then Ok tt (set_chans
                       (<[c := mkChan (chanCap cs) (chanSent cs ++ [v]) (chanRecv cs)]> (chans st)) st)
                else Fail Blocked st
            end.

(** [<-c], by the reader of the channel *)
Definition chan_recv (c : nat) : M bool :=
  fun st => match chans st !! c with
            | None => Fail NilDereference st
            | Some cs =>
                match chanSent cs !! chanRecv cs with
                | Some v => Ok v (set_chans
                       (<[c := mkChan (chanCap cs) (chanSent cs) (S (chanRecv cs))]> (chans st)) st)
                | None => Fail Blocked st
                end
            end.

(** [&ackChan{...}] *)
Definition alloc (t : ackChan) : M nat :=
  fun st => Ok (length (heap st)) (set_heap (heap st ++ [t]) st).

(** [*a] *)
Definition load (a : nat) : M ackChan :=
  fun st => match heap st !! a with
            | Some t => Ok t st
            | None => Fail NilDereference st
            end.

(** [*a = t] *)
Definition store (a : nat) (t : ackChan) : M unit :=
  fun st => match heap st !! a with
            | Some _ => Ok tt (set_heap (<[a := t]> (heap st)) st)
            | None => Fail NilDereference st
            end.

(** ** The ticket: [newAckChan], [start], [done] *)

Definition newAckChan : M nat :=
  let* c := make_chan 1 in
  let* now := time_Now in
  alloc (mkAckChan c now 0).

Definition ackChan_start (a : nat) : M unit :=
  let* t := load a in
  let* now := time_Now in
  RecordTimer ElasticsearchBulkProcessorWaitLatency (time_Sub now (addedAt t)) >>>
  let* now' := time_Now in
  store a (mkAckChan (ackChInternal t) (addedAt t) now').

Definition ackChan_done (a : nat) (ack : bool) : M unit :=
  let* t := load a in
  modify (fun st => set_doneCalls (doneCalls st ++ [(a, ack)]) st) >>>
  chan_send (ackChInternal t) ack >>>
  let* now := time_Now in
  RecordTimer ElasticsearchBulkProcessorRequestLatency (time_Sub now (addedAt t)) >>>
  if decide (startedAt t = 0%nat) then ret tt
  else
    let* now' := time_Now in
    RecordTimer ElasticsearchBulkProcessorCommitLatency (time_Sub now' (startedAt t)).

(** ** Lifecycle *)

(** [ProcessorConfig], restricted to the option stored in the processor. *)
Record ProcessorConfig := mkConfig {
  IndexerConcurrency : Z
}.

(** [uint32(x)] for an [int] *)
Definition uint32 (x : Z) : Z := x mod 2 ^ 32.

Definition NewProcessor (cfg : ProcessorConfig) : processorImpl :=
  mkProcessor DaemonStatusInitialized None None [] (mkMetrics 0 0 0 0 [])
    (uint32 (IndexerConcurrency cfg)) [] [] 0 [].

(** [atomic.CompareAndSwapInt32(&p.status, old, new)] *)
Definition CompareAndSwapStatus (old new : DaemonStatus) : M bool :=
  fun st => if decide (status st = old) then Ok true (set_status new st)
            else Ok false st.

(** [runErr] tells whether [client.RunBulkProcessor] returns an error. *)
Definition Start (runErr : bool) : M unit :=
  let* swapped := CompareAndSwapStatus DaemonStatusInitialized DaemonStatusStarted in
  if negb swapped then ret tt
  else
    modify (set_mapToAckChan (Some ∅)) >>>
    modify (set_bulkProcessor (if runErr then None else Some [])) >>>
    if runErr then logger_Fatal "Unable to start Elasticsearch processor."
    else ret tt.

(** [stopErr] tells whether [bulkProcessor.Stop] returns an error. *)
Definition Stop (stopErr : bool) : M unit :=
  let* swapped := CompareAndSwapStatus DaemonStatusStarted DaemonStatusStopped in
  if negb swapped then ret tt
  else
    let* bp := gets bulkProcessor in
    match bp with
    | None => panic NilDereference
    | Some _ =>
        (if stopErr then logger_Fatal "Unable to stop Elasticsearch processor."
         else ret tt) >>>
        modify (set_mapToAckChan None) >>>
        modify (set_bulkProcessor None)
    end.

(** [bulkProcessor.Add(request)] *)
Definition bulkProcessor_Add (request : esclient_BulkableRequest) : M unit :=
  let* bp := gets bulkProcessor in
  match bp with
  | None => panic NilDereference
  | Some q => modify (set_bulkProcessor (Some (q ++ [request])))
  end.

(** ** Response classification *)

Definition isSuccess (item : BulkResponseItem) : bool :=
  if decide (200 ≤ Status item ∧ Status item < 300) then true
  else if decide (Status item = 409) then true
  else if decide (Status item = 404) then
    match Error item with
    | Some e => if decide (Type_ e = "index_not_found_exception") then false else true
    | None => true
    end
  else false.

Definition extractErrorReason (resp : BulkResponseItem) : string :=
  match Error resp with
  | Some e => Reason e
  | None => ""
  end.

Definition buildResponseIndex_step (result : gmap string BulkResponseItem)
    (responseItem : BulkResponseItem) : gmap string BulkResponseItem :=
  match result !! Id responseItem with
  | None => <[Id responseItem := responseItem]> result
  | Some existingResponseItem =>
      if decide (Status existingResponseItem < Status responseItem)
      then <[Id responseItem := responseItem]> result
      else result
  end.

Definition buildResponseIndex (response : BulkResponse) : gmap string BulkResponseItem :=
  foldl (fun result operationResponseItemMap =>
           foldl (fun result kv => buildResponseIndex_step result (snd kv))
                 result operationResponseItemMap)
        ∅ (Items response).

(** ** The SQL shard store *)

(** An error of [database/sql] or of the plugin: [sql.ErrNoRows], which the
    store tells apart, or any other. *)
Inductive sqlError :=
  | sql_ErrNoRows
  | sql_Error (msg : string).

(** [sqlplugin.ShardsRow] *)
Record ShardsRow := mkShardsRow {
  row_ShardID : Z;
  row_RangeID : Z;
  row_Data : list Byte.byte;
  row_DataEncoding : string
}.

(** [sql.Result], restricted to [RowsAffected()]. *)
Record sqlResult := mkSqlResult {
  RowsAffected : Z + sqlError
}.

(** The part of [sqlplugin.DB] and [sqlplugin.Tx] the shard store calls,
    over a database state [D]: each call yields its result and the state it
    leaves.  A [ShardsFilter] is its shard id. *)
Class sqlplugin_DB (D : Type) := {
  SelectFromShards : Z → D → (ShardsRow + sqlError) * D;
  InsertIntoShards : ShardsRow → D → option sqlError * D;
  WriteLockShards : Z → D → (Z + sqlError) * D;
  ReadLockShards : Z → D → (Z + sqlError) * D;
  UpdateShards : ShardsRow → D → (sqlResult + sqlError) * D
}.

(** What the store takes from other packages: the encoding types with
    their [String()], [persistence.NewDataBlob], and the [%v] formatting of
    an integer and of an error by [fmt]. *)
Class persistence_api (E B : Type) := {
  EncodingType_String : E → string;
  NewDataBlob : list Byte.byte → string → B;
  fmt_int : Z → string;
  fmt_error : sqlError → string
}.

(** [persistence.DataBlob] as the requests carry it. *)
Record DataBlob (E : Type) := mkDataBlob {
  blob_Data : list Byte.byte;
  blob_EncodingType : E
}.
Arguments mkDataBlob {E} _ _.
Arguments blob_Data {E} _.
Arguments blob_EncodingType {E} _.

(** The requests; [ShardInfo] is a pointer, [None] when nil. *)
Record InternalCreateShardRequest (E : Type) := mkCreateShardRequest {
  create_ShardID : Z;
  create_RangeID : Z;
  create_ShardInfo : option (DataBlob E)
}.
Arguments mkCreateShardRequest {E} _ _ _.
Arguments create_ShardID {E} _.
Arguments create_RangeID {E} _.
Arguments create_ShardInfo {E} _.

Record InternalUpdateShardRequest (E : Type) := mkUpdateShardRequest {
  update_ShardID : Z;
  update_RangeID : Z;
  update_ShardInfo : option (DataBlob E);
  update_PreviousRangeID : Z
}.
Arguments mkUpdateShardRequest {E} _ _ _ _.
Arguments update_ShardID {E} _.
Arguments update_RangeID {E} _.
Arguments update_ShardInfo {E} _.
Arguments update_PreviousRangeID {E} _.

(** The errors the store returns, each with its message. *)
Inductive storeError :=
  | ShardAlreadyExistError (Msg : string)
  | ShardOwnershipLostError (ShardID : Z) (Msg : string)
  | serviceerror_NotFound (msg : string)
  | serviceerror_Internal (msg : string)
  | fmt_Errorf (msg : string)
  | plugin_error (err : sqlError).

(** A call returns, or panics on a nil pointer. *)
Inductive Outcome (A : Type) :=
  | Returned (a : A)
  | Panicked.
Arguments Returned {A} a.
Arguments Panicked {A}.

Section ShardStore.
Context {D E B : Type} `{!sqlplugin_DB D} `{!persistence_api E B}.

(** [GetShard]: the blob of the response, or an error. *)
Definition GetShard (shardID : Z) (db : D) : (B + storeError) * D :=
  let '(r, db') := SelectFromShards shardID db in
  match r with
  | inl row => (inl (NewDataBlob (row_Data row) (row_DataEncoding row)), db')
  | inr sql_ErrNoRows =>
      (inr (serviceerror_NotFound
              ("GetShard operation failed. Shard with ID " +:+ fmt_int shardID
               +:+ " not found. Error: " +:+ fmt_error sql_ErrNoRows)), db')
  | inr err =>
      (inr (serviceerror_Internal
              ("GetShard operation failed. Failed to get record. ShardId: "
               +:+ fmt_int shardID +:+ ". Error: " +:+ fmt_error err)), db')
  end.

Definition CreateShard (request : InternalCreateShardRequest E) (db : D)
    : Outcome (option storeError) * D :=
  let '(r, db1) := GetShard (create_ShardID request) db in
  match r with
  | inl _ =>
      (Returned (Some (ShardAlreadyExistError
         ("CreateShard operaiton failed. Shard with ID "
          +:+ fmt_int (create_ShardID request) +:+ " already exists."))), db1)
  | inr _ =>
      match create_ShardInfo request with
      | None => (Panicked, db1)
      | Some info =>
          let row := mkShardsRow (create_ShardID request) (create_RangeID request)
                       (blob_Data info)
                       (EncodingType_String (blob_EncodingType info)) in
          let '(e, db2) := InsertIntoShards row db1 in
          match e with
          | Some err =>
              (Returned (Some (serviceerror_Internal
                 ("CreateShard operation failed. Failed to insert into shards table. Error: "
                  +:+ fmt_error err))), db2)
          | None => (Returned None, db2)
          end
      end
  end.

(** [lockShard] and [readLockShard], over the lock call they make. *)
Definition lockShard_with (lock : Z → D → (Z + sqlError) * D) (verb : string)
    (shardID oldRangeID : Z) (db : D) : option storeError * D :=
  let '(r, db') := lock shardID db in
  match r with
  | inl rangeID =>
      if decide (rangeID = oldRangeID) then (None, db')
      else (Some (ShardOwnershipLostError shardID
                    ("Failed to " +:+ verb +:+ " shard. Previous range ID: "
                     +:+ fmt_int oldRangeID +:+ "; new range ID: "
                     +:+ fmt_int rangeID)), db')
  | inr sql_ErrNoRows =>
      (Some (serviceerror_Internal
               ("Failed to lock shard with ID " +:+ fmt_int shardID
                +:+ " that does not exist.")), db')
  | inr err =>
      (Some (serviceerror_Internal
               ("Failed to lock shard with ID: " +:+ fmt_int shardID
                +:+ ". Error: " +:+ fmt_error err)), db')
  end.

Definition lockShard := lockShard_with WriteLockShards "update".
Definition readLockShard := lockShard_with ReadLockShards "lock".

(** The function [UpdateShard] hands to [txExecute]. *)
Definition UpdateShard_tx (request : InternalUpdateShardRequest E) (tx : D)
    : Outcome (option storeError) * D :=
  let '(e, tx1) := lockShard (update_ShardID request)
                     (update_PreviousRangeID request) tx in
  match e with
  | Some err => (Returned (Some err), tx1)
  | None =>
      match update_ShardInfo request with
      | None => (Panicked, tx1)
      | Some info =>
          let row := mkShardsRow (update_ShardID request) (update_RangeID request)
                       (blob_Data info)
                       (EncodingType_String (blob_EncodingType info)) in
          let '(r, tx2) := UpdateShards row tx1 in
          match r with
          | inr err => (Returned (Some (plugin_error err)), tx2)
          | inl result =>
              match RowsAffected result with
              | inr err =>
                  (Returned (Some (fmt_Errorf
                     ("rowsAffected returned error for shardID "
                      +:+ fmt_int (update_ShardID request) +:+ ": "
                      +:+ fmt_error err))), tx2)
              | inl rowsAffected =>
                  if decide (rowsAffected = 1) then (Returned None, tx2)
                  else (Returned (Some (fmt_Errorf
                          ("rowsAffected returned " +:+ fmt_int rowsAffected
                           +:+ " shards instead of one"))), tx2)
              end
          end
      end
  end.

End ShardStore.

(** ** Sample data *)

(** The double-quote character, to spell JSON text. *)
Definition dq : string :=
  String (Ascii.Ascii false true false false false true false false) EmptyString.

(** The two lines of an index request for document A with key K, a body
    whose VisibilityTaskKey is a number, and the line of a delete request. *)
Definition sample_action : string :=
  "{" +:+ dq +:+ "index" +:+ dq +:+ ":{" +:+ dq +:+ "_id" +:+ dq +:+ ":"
      +:+ dq +:+ "A" +:+ dq +:+ "}}".
Definition sample_body : string :=
  "{" +:+ dq +:+ "VisibilityTaskKey" +:+ dq +:+ ":" +:+ dq +:+ "K" +:+ dq +:+ "}".
Definition sample_body_number : string :=
  "{" +:+ dq +:+ "VisibilityTaskKey" +:+ dq +:+ ":619}".
Definition sample_delete : string :=
  "{" +:+ dq +:+ "delete" +:+ dq +:+ ":{" +:+ dq +:+ "_id" +:+ dq +:+ ":"
      +:+ dq +:+ "K" +:+ dq +:+ "}}".

(** What [json.Unmarshal] yields on these lines; any other text is treated
    as undecodable. *)
Definition sample_Unmarshal_body (s : string) : option (gmap string JValue) :=
  if decide (s = sample_body) then Some {[ "VisibilityTaskKey" := JString "K" ]}
  else if decide (s = sample_body_number) then Some {[ "VisibilityTaskKey" := JNonString ]}
  else None.

Definition sample_Unmarshal_action (s : string)
    : option (list (string * gmap string JValue)) :=
  if decide (s = sample_action) then Some [("index", {[ "_id" := JString "A" ]})]
  else if decide (s = sample_delete) then Some [("delete", {[ "_id" := JString "K" ]})]
  else None.

(** Stand-ins for the hash and for the two retry classifiers. *)
Definition sample_Hash32 (s : string) : Z := Z.of_nat (String.length s).
Definition sample_IsRetryableError (e : string) : bool := bool_decide (e = "timeout").
Definition sample_IsRetryableStatus (s : Z) : bool :=
  bool_decide (s = 408 ∨ s = 429 ∨ s = 503).

Definition sample_request : elastic_BulkableRequest :=
  mkRequest (Some [sample_action; sample_body]).
Definition sample_request_number : elastic_BulkableRequest :=
  mkRequest (Some [sample_action; sample_body_number]).
Definition sample_add : esclient_BulkableRequest := mkEsRequest "A".
Definition sample_config : ProcessorConfig := mkConfig 4.
Definition sample_response (status : Z) : BulkResponse :=
  mkResponse [[("index", mkItem "A" status None)]].

(** A shards table keyed by shard id, standing in for the database: a
    lookup or a lock of an absent shard ends in [sql.ErrNoRows], an insert
    under a present id fails, an update affects the one row with the id or
    none. *)
#[global] Instance sample_DB : sqlplugin_DB (gmap Z ShardsRow) := {|
  SelectFromShards shardID t :=
    (match t !! shardID with Some row => inl row | None => inr sql_ErrNoRows end, t);
  InsertIntoShards row t :=
    match t !! row_ShardID row with
    | Some _ => (Some (sql_Error "duplicate key"), t)
    | None => (None, <[row_ShardID row := row]> t)
    end;
  WriteLockShards shardID t :=
    (match t !! shardID with
     | Some row => inl (row_RangeID row)
     | None => inr sql_ErrNoRows
     end, t);
  ReadLockShards shardID t :=
    (match t !! shardID with
     | Some row => inl (row_RangeID row)
     | None => inr sql_ErrNoRows
     end, t);
  UpdateShards row t :=
    match t !! row_ShardID row with
    | Some _ => (inl (mkSqlResult (inl 1)), <[row_ShardID row := row]> t)
    | None => (inl (mkSqlResult (inl 0)), t)
    end
|}.

(** Encodings named by their string, blobs as pairs, and a rendering of
    integers and errors. *)
#[global] Instance sample_api : persistence_api string (list Byte.byte * string) := {|
  EncodingType_String e := e;
  NewDataBlob data encoding := (data, encoding);
  fmt_int n := pretty n;
  fmt_error err :=
    match err with
    | sql_ErrNoRows => "sql: no rows in result set"
    | sql_Error msg => msg
    end
|}.

Definition sample_row (rangeID : Z) : ShardsRow := mkShardsRow 7 rangeID [] "Proto3".
Definition sample_update (previous rangeID : Z) : InternalUpdateShardRequest string :=
  mkUpdateShardRequest 7 rangeID (Some (mkDataBlob [] "Proto3")) previous.
Definition sample_create (rangeID : Z) : InternalCreateShardRequest string :=
  mkCreateShardRequest 7 rangeID (Some (mkDataBlob [] "Proto3")).

(** ** Operations that depend on code outside the package *)

Section Processor.

(** [farm.Hash32], a 32-bit hash of the key's bytes. *)
Variable farm_Hash32 : string → Z.

(** [json.Unmarshal] of a request body into [map[string]interface{}], and of
    an action line into [map[string]map[string]interface{}]; [None] is a
    decoding error.  The second map is given as its entries in the order
    [range] visits them. *)
Variable json_Unmarshal_body : string → option (gmap string JValue).
Variable json_Unmarshal_action : string → option (list (string * gmap string JValue)).

(** [esclient.IsRetryableError] (errors are named by their message) and
    [esclient.IsRetryableStatus]. *)
Variable IsRetryableError : string → bool.
Variable IsRetryableStatus : Z → bool.

(** Modelled from the spec: [searchattribute.VisibilityTaskKey], the
    well-known field [VisibilityTaskKey]. *)
Definition searchattribute_VisibilityTaskKey : string := "VisibilityTaskKey".

Definition hashFn (key : KeyValue) : M Z :=
  match key with
  | KeyOther => ret 0
  | KeyString id =>
      let hash := farm_Hash32 id in
      let* n := gets indexerConcurrency in
      if decide (n = 0) then panic DivideByZero
      else ret (hash mod n)
  end.

(** ** The key-to-ticket map *)

(** Modelled from the spec: [collection.ConcurrentTxMap] is declared outside
    the files at hand.  [PutOrDo]: if no entry exists, insert the new value and
    report no duplicate; otherwise run the mutator on the existing entry and
    report a duplicate, without inserting.  A stable hash of the key selects
    the stripe, so every operation first evaluates the hash function it was
    built with ([hashFn]); the stripe lock makes the operation one step, and
    the stripes together are one finite map.  Calling an operation through a
    nil interface panics. *)
Definition PutOrDo (key : string) (value : nat) (fn : string → nat → M unit) : M bool :=
  let* mo := gets mapToAckChan in
  match mo with None => panic NilDereference | Some _ => ret tt end >>>
  hashFn (KeyString key) >>>
  let* mo := gets mapToAckChan in
  match mo with
  | None => panic NilDereference
  | Some m =>
      match m !! key with
      | None => modify (set_mapToAckChan (Some (<[key := value]> m))) >>> ret false
      | Some existing => fn key existing >>> ret true
      end
  end.

(** Modelled from the spec: [GetAndDo]: if the entry exists, run [fn] on it;
    otherwise do nothing.  Returns whether the entry exists. *)
Definition GetAndDo (key : string) (fn : string → nat → M unit) : M bool :=
  let* mo := gets mapToAckChan in
  match mo with None => panic NilDereference | Some _ => ret tt end >>>
  hashFn (KeyString key) >>>
  let* mo := gets mapToAckChan in
  match mo with
  | None => panic NilDereference
  | Some m =>
      match m !! key with
      | None => ret false
      | Some existing => fn key existing >>> ret true
      end
  end.

(** Modelled from the spec: [RemoveIf]: if the entry exists and the predicate
    returns true on it, remove it and return true; otherwise leave it and
    return false. *)
Definition RemoveIf (key : string) (pred : string → nat → M bool) : M bool :=
  let* mo := gets mapToAckChan in
  match mo with None => panic NilDereference | Some _ => ret tt end >>>
  hashFn (KeyString key) >>>
  let* mo := gets mapToAckChan in
  match mo with
  | None => panic NilDereference
  | Some m =>
      match m !! key with
      | None => ret false
      | Some existing =>
          let* b := pred key existing in
          if b then
            modify (fun st => set_mapToAckChan (delete key <$> mapToAckChan st) st) >>>
            ret true
          else ret false
      end
  end.

(** ** [Add] and [sendToAckChan] *)

Definition Add (request : esclient_BulkableRequest) (visibilityTaskKey : string) : M nat :=
  let* ackCh := newAckChan in
  let* new := load ackCh in
  let retCh := ackChInternal new in
  let* isDup := PutOrDo visibilityTaskKey ackCh (fun key ackChExisting =>
      logger_Warn "Adding duplicate ES request for visibility task key." >>>
      ackChan_done ackChExisting false >>>
      let* new := load ackCh in
      let* old := load ackChExisting in
      store ackChExisting (mkAckChan (ackChInternal old) (addedAt new) (startedAt old)) >>>
      let* old := load ackChExisting in
      store ackChExisting (mkAckChan (ackChInternal old) (addedAt old) (startedAt new)) >>>
      let* old := load ackChExisting in
      store ackChExisting (mkAckChan (ackChInternal new) (addedAt old) (startedAt old))) in
  (if negb isDup then bulkProcessor_Add request else ret tt) >>>
  ret retCh.

Definition sendToAckChan (visibilityTaskKey : string) (ack : bool) : M unit :=
  RemoveIf visibilityTaskKey (fun key ackCh =>
    ackChan_done ackCh ack >>> ret true) >>>
  ret tt.

(** ** Key extraction *)

Definition extractDocID (request : elastic_BulkableRequest) : M string :=
  match Source request with
  | None =>
      logger_Error "Unable to get ES request source." >>>
      IncCounter ElasticsearchBulkProcessorCorruptedData >>>
      ret ""
  | Some req =>
      match req !! 0%nat with
      | None => panic IndexOutOfRange
      | Some line =>
          match json_Unmarshal_action line with
          | None =>
              logger_Error "Unable to unmarshal ES request body." >>>
              IncCounter ElasticsearchBulkProcessorCorruptedData >>>
              ret ""
          | Some body =>
              match list_find (fun kv => is_Some (snd kv !! "_id")) body with
              | Some (_, (_, opMap)) =>
                  match opMap !! "_id" with
                  | Some (JString _id) => ret _id
                  | _ => panic TypeAssertion
                  end
              | None =>
                  logger_Error "Unable to extract _id from ES request." >>>
                  IncCounter ElasticsearchBulkProcessorCorruptedData >>>
                  ret ""
              end
          end
      end
  end.

Definition extractVisibilityTaskKey (request : elastic_BulkableRequest) : M string :=
  match Source request with
  | None =>
      logger_Error "Unable to get ES request source." >>>
      IncCounter ElasticsearchBulkProcessorCorruptedData >>>
      ret ""
  | Some req =>
      if decide (length req = 2%nat) then
        match req !! 1%nat with
        | None => panic IndexOutOfRange
        | Some line =>
            match json_Unmarshal_body line with
            | None =>
                logger_Error "Unable to unmarshal ES request body." >>>
                IncCounter ElasticsearchBulkProcessorCorruptedData >>>
                ret ""
            | Some body =>
                match body !! searchattribute_VisibilityTaskKey with
                | None =>
                    logger_Error "Unable to extract VisibilityTaskKey from ES request." >>>
                    IncCounter ElasticsearchBulkProcessorCorruptedData >>>
                    ret ""
                | Some (JString k) => ret k
                | Some JNonString => panic TypeAssertion
                end
            end
        end
      else extractDocID request
  end.

(** ** The hooks of the bulk processor *)

Definition bulkBeforeAction (requests : list elastic_BulkableRequest) : M unit :=
  AddCounter ElasticsearchBulkProcessorRequests (Z.of_nat (length requests)) >>>
  RecordDistribution ElasticsearchBulkProcessorBulkSize (Z.of_nat (length requests)) >>>
  forEach (fun request =>
    let* visibilityTaskKey := extractVisibilityTaskKey request in
    if decide (visibilityTaskKey = "") then ret tt
    else GetAndDo visibilityTaskKey (fun key ackCh => ackChan_start ackCh) >>> ret tt)
  requests.

(** Body of the loop of [bulkAfterAction] taken when [err != nil]. *)
Definition bulkAfterAction_failed (isRetryable : bool)
    (request : elastic_BulkableRequest) : M unit :=
  logger_Error "ES request failed." >>>
  IncCounter ElasticsearchBulkProcessorFailures >>>
  if negb isRetryable then
    let* visibilityTaskKey := extractVisibilityTaskKey request in
    if decide (visibilityTaskKey = "") then ret tt
    else sendToAckChan visibilityTaskKey false
  else ret tt.

(** Body of the loop of [bulkAfterAction] over a batch response. *)
Definition bulkAfterAction_item (responseIndex : gmap string BulkResponseItem)
    (request : elastic_BulkableRequest) : M unit :=
  let* visibilityTaskKey := extractVisibilityTaskKey request in
  if decide (visibilityTaskKey = "") then ret tt
  else
    let* docID := extractDocID request in
    match responseIndex !! docID with
    | None =>
        logger_Error "ES request failed. Request item doesn't have corresponding response item." >>>
        IncCounter ElasticsearchBulkProcessorCorruptedData >>>
        sendToAckChan visibilityTaskKey false
    | Some responseItem =>
        if isSuccess responseItem then sendToAckChan visibilityTaskKey true
        else if negb (IsRetryableStatus (Status responseItem)) then
          logger_Error "ES request failed." >>>
          IncCounter ElasticsearchBulkProcessorFailures >>>
          sendToAckChan visibilityTaskKey false
        else
          logger_Warn "ES request retried." >>>
          IncCounter ElasticsearchBulkProcessorRetries
    end.

Definition bulkAfterAction (requests : list elastic_BulkableRequest)
    (response : option BulkResponse) (err : option string) : M unit :=
  match err with
  | Some e =>
      let isRetryable := IsRetryableError e in
      logger_Error "Unable to commit bulk ES request." >>>
      forEach (bulkAfterAction_failed isRetryable) requests
  | None =>
      match response with
      | None => panic NilDereference
      | Some response =>
          let responseIndex := buildResponseIndex response in
          forEach (bulkAfterAction_item responseIndex) requests
      end
  end.

(** ** Runs of the processor *)

(** What can happen to a processor: its own methods, called by producers;
    the two hooks, called by the bulk processor with whatever batch and
    outcome it has; and a producer taking a value from a result channel. *)
Inductive Call :=
  | CallStart (runErr : bool)
  | CallStop (stopErr : bool)
  | CallAdd (request : esclient_BulkableRequest) (visibilityTaskKey : string)
  | CallBefore (requests : list elastic_BulkableRequest)
  | CallAfter (requests : list elastic_BulkableRequest)
      (response : option BulkResponse) (err : option string)
  | CallReceive (c : nat).

Definition call (c : Call) : M unit :=
  match c with
  | CallStart runErr => Start runErr
  | CallStop stopErr => Stop stopErr
  | CallAdd request key => Add request key >>> ret tt
  | CallBefore requests => bulkBeforeAction requests
  | CallAfter requests response err => bulkAfterAction requests response err
  | CallReceive c => chan_recv c >>> ret tt
  end.

(** Runs a sequence of calls, stopping at the first that does not return. *)
Definition calls (cs : list Call) : M unit := forEach call cs.

(** The states a processor built from [cfg] can be in between calls. *)
Inductive reachable (cfg : ProcessorConfig) : processorImpl → Prop :=
  | reachable_new : reachable cfg (NewProcessor cfg)
  | reachable_call st c st' :
      reachable cfg st → call c st = Ok tt st' → reachable cfg st'.

(** ** Vocabulary of the properties *)

Definition final {A} (r : Res A) : processorImpl :=
  match r with Ok _ st | Fail _ st => st end.

Definition value {A} (r : Res A) : option A :=
  match r with Ok a _ => Some a | Fail _ _ => None end.

(** [keeps R m]: whatever [m] does and however it ends, the state it leaves
    is [R]-related to the one it started in. *)
Definition keeps (R : relation processorImpl) {A} (m : M A) : Prop :=
  ∀ st, R st (final (m st)).

(** The items of a response in the order [buildResponseIndex] visits them. *)
Definition responseItems (response : BulkResponse) : list BulkResponseItem :=
  snd <$> concat (Items response).

(** What the index built from a list of items holds. *)
Definition index_of (items : list BulkResponseItem)
    (idx : gmap string BulkResponseItem) : Prop :=
  (∀ id item, idx !! id = Some item →
     item ∈ items ∧ Id item = id
     ∧ ∀ item', item' ∈ items → Id item' = id → Status item' ≤ Status item)
  ∧ (∀ item', item' ∈ items → is_Some (idx !! Id item')).

(** Two states agree on a component. *)
Definition agree_on {B} (proj : processorImpl → B) : relation processorImpl :=
  fun st st' => proj st = proj st'.

(** Everything but the logger and the metrics client. *)
Definition core (st : processorImpl) :=
  (status st, bulkProcessor st, mapToAckChan st, indexerConcurrency st,
   heap st, chans st, clock st, doneCalls st).

(** The components the properties speak about: everything but the clock,
    the logger and the metrics other than the corrupted-data counter. *)
Definition view (st : processorImpl) :=
  (status st, bulkProcessor st, mapToAckChan st, indexerConcurrency st,
   heap st, chans st, doneCalls st, cntCorruptedData (metricsClient st)).

(** The ticket a key is mapped to, with the channel it holds. *)
Definition ticket_of (st : processorImpl) (key : string) (a : nat) (t : ackChan) : Prop :=
  ∃ m, mapToAckChan st = Some m ∧ m !! key = Some a ∧ heap st !! a = Some t.

(** The invariant of a processor between calls: channels have capacity 1
    and have carried at most one value; tickets hold allocated channels; a
    mapped ticket holds a channel that has carried nothing, and no two keys
    are mapped to tickets with the same channel; the map and the bulk
    processor exist exactly while the status is Started. *)
Record Inv (st : processorImpl) : Prop := mkInv {
  inv_chan : ∀ c cs, chans st !! c = Some cs →
    chanCap cs = 1%nat ∧ (length (chanSent cs) ≤ 1)%nat;
  inv_heap : ∀ a t, heap st !! a = Some t →
    (ackChInternal t < length (chans st))%nat;
  inv_map : ∀ k a t, ticket_of st k a t →
    ∃ cs, chans st !! ackChInternal t = Some cs ∧ chanSent cs = [];
  inv_map_heap : ∀ m k a, mapToAckChan st = Some m → m !! k = Some a →
    is_Some (heap st !! a);
  inv_sep : ∀ k1 k2 a1 a2 t1 t2, ticket_of st k1 a1 t1 → ticket_of st k2 a2 t2 →
    ackChInternal t1 = ackChInternal t2 → k1 = k2;
  inv_life :
    if decide (status st = DaemonStatusStarted)
    then is_Some (mapToAckChan st) ∧ is_Some (bulkProcessor st)
    else mapToAckChan st = None ∧ bulkProcessor st = None
}.

(** [preserves P m]: when [m] returns from a state satisfying [P], the state
    it returns in satisfies [P]. *)
Definition preserves (P : processorImpl → Prop) {A} (m : M A) : Prop :=
  ∀ st a st', P st → m st = Ok a st' → P st'.

(** Replaces the final state of an outcome. *)
Definition map_final {A} (f : processorImpl → processorImpl) (r : Res A) : Res A :=
  match r with
  | Ok a st => Ok a (f st)
  | Fail e st => Fail e (f st)
  end.

(** [keyed requests st k]: some request of the batch has the non-empty
    extracted key [k]. *)
Definition keyed (requests : list elastic_BulkableRequest) (st : processorImpl)
    (k : string) : Prop :=
  k ≠ "" ∧ ∃ r, r ∈ requests ∧ value (extractVisibilityTaskKey r st) = Some k.

(** The ticket discipline read on the ticket structs themselves: [done] is
    called at most once on a ticket, and a ticket on which it has been called
    is not in the map. *)
Definition done_once_and_unmapped (st : processorImpl) : Prop :=
  (∀ a ack1 ack2 i j, doneCalls st !! i = Some (a, ack1) →
     doneCalls st !! j = Some (a, ack2) → i = j)
  ∧ (∀ a ack, (a, ack) ∈ doneCalls st → ∀ k t, ¬ ticket_of st k a t).


(** [first_greatest items i item]: [item] is at position [i] of [items];
    every item with the same id has at most its status, and every earlier
    one has a smaller status. *)
Definition first_greatest (items : list BulkResponseItem) (i : nat)
    (item : BulkResponseItem) : Prop :=
  items !! i = Some item
  ∧ ∀ j item', items !! j = Some item' → Id item' = Id item →
      Status item' ≤ Status item ∧ ((j < i)%nat → Status item' < Status item).

(** The four counters of the metrics client. *)
Definition counters (st : processorImpl) : Z * Z * Z * Z :=
  (cntRequests (metricsClient st), cntFailures (metricsClient st),
   cntCorruptedData (metricsClient st), cntRetries (metricsClient st)).

(** The counters other than the corrupted-data one. *)
Definition other_counters (st : processorImpl) : Z * Z * Z :=
  (cntRequests (metricsClient st), cntFailures (metricsClient st),
   cntRetries (metricsClient st)).

(** What routing an ack for [k] can have done between [st] and [st']: either
    nothing to the map and the channels, or the ticket mapped under [k] has
    been completed with [ack] and unmapped. *)
Definition routed (k : string) (m : gmap string nat) (st st' : processorImpl)
    : Prop :=
  (mapToAckChan st' = Some m ∧ chans st' = chans st
   ∧ doneCalls st' = doneCalls st)
  ∨ (k ≠ "" ∧ ∃ a t cs ack,
       m !! k = Some a ∧ heap st !! a = Some t
       ∧ chans st !! ackChInternal t = Some cs ∧ chanSent cs = []
       ∧ mapToAckChan st' = Some (delete k m)
       ∧ chans st' = <[ackChInternal t := mkChan (chanCap cs) [ack] (chanRecv cs)]> (chans st)
       ∧ doneCalls st' = doneCalls st ++ [(a, ack)]).

(** [extractable request st]: neither extraction the after-commit hook
    performs on the request panics: the key can be extracted and, when it is
    not empty, so can the document id. *)
Definition extractable (request : elastic_BulkableRequest) (st : processorImpl)
    : Prop :=
  ∃ k, value (extractVisibilityTaskKey request st) = Some k
       ∧ (k ≠ "" → is_Some (value (extractDocID request st))).

(** [started_only st st']: the heap of [st'] holds the tickets of [st] at
    the same addresses, with the same channel and the same [addedAt]; a
    ticket whose [startedAt] was set still has it set. *)
Definition started_only (st st' : processorImpl) : Prop :=
  length (heap st') = length (heap st)
  ∧ ∀ a t, heap st !! a = Some t →
      ∃ t', heap st' !! a = Some t'
            ∧ ackChInternal t' = ackChInternal t ∧ addedAt t' = addedAt t
            ∧ (startedAt t ≠ 0%nat → startedAt t' ≠ 0%nat).

(** [quiet st st']: if [st] has no map, then [st'] has none either, and
    nothing has been sent or completed between the two. *)
Definition quiet (st st' : processorImpl) : Prop :=
  mapToAckChan st = None →
  mapToAckChan st' = None ∧ bulkProcessor st' = bulkProcessor st
  ∧ doneCalls st' = doneCalls st
  ∧ chanSent <$> chans st' = chanSent <$> chans st
  ∧ heap st' = heap st.

(** * Properties *)

(** ** Outcomes and frame reasoning *)

Section Keeps.
Context (R : relation processorImpl) `{!Reflexive R, !Transitive R}.

Lemma keeps_ret {A} (a : A) : keeps R (ret a).
Proof. intros st. simpl. reflexivity. Qed.

Lemma keeps_panic {A} f : keeps R (@panic A f).
Proof. intros st. simpl. reflexivity. Qed.

Lemma keeps_gets {A} (f : processorImpl → A) : keeps R (gets f).
Proof. intros st. simpl. reflexivity. Qed.

Lemma keeps_bind {A B} (m : M A) (k : A → M B) :
  keeps R m → (∀ a, keeps R (k a)) → keeps R (bind m k).
Proof.
  intros Hm Hk st. unfold bind. specialize (Hm st).
  destruct (m st) as [a st1|f st1]; simpl in *; [|done].
  etransitivity; [exact Hm|apply Hk].
Qed.

Lemma keeps_forEach {A} (f : A → M unit) l :
  (∀ x, keeps R (f x)) → keeps R (forEach f l).
Proof.
  intros Hf. induction l as [|x l IH]; simpl.
  - apply keeps_ret.
  - apply keeps_bind; [apply Hf|intros _; exact IH].
Qed.

Lemma keeps_modify f : (∀ st, R st (f st)) → keeps R (modify f).
Proof. intros H st. apply H. Qed.
End Keeps.

(** ** Response classification *)

(** C3.  The success classifier answers true exactly when the status is in
    [200, 300), or is 409, or is 404 without the error type
    index_not_found_exception. *)
Theorem isSuccess_iff (item : BulkResponseItem) :
  isSuccess item = true ↔
    (200 ≤ Status item ∧ Status item < 300)
    ∨ Status item = 409
    ∨ (Status item = 404
       ∧ ¬ ∃ e, Error item = Some e ∧ Type_ e = "index_not_found_exception").
Proof.
  unfold isSuccess.
  destruct (decide (200 ≤ Status item ∧ Status item < 300)) as [H2|H2].
  { split; [tauto|done]. }
  destruct (decide (Status item = 409)) as [H9|H9].
  { split; [tauto|done]. }
  destruct (decide (Status item = 404)) as [H4|H4].
  - destruct (Error item) as [e|] eqn:He.
    + destruct (decide (Type_ e = "index_not_found_exception")) as [Ht|Ht].
      * split; [done|]. intros [?|[?|[_ Hn]]]; try done.
        exfalso. apply Hn. by exists e.
      * split; [|done]. intros _. right. right. split; [done|].
        intros (e' & [= <-] & ?). done.
    + split; [|done]. intros _. right. right. split; [done|].
      intros (e' & ? & ?). done.
  - split; [done|]. intros [?|[?|[? _]]]; done.
Qed.

(** In particular: a 404 caused by a missing index is a failure, any other
    404 a success, and so is a 409. *)
Lemma isSuccess_404_index_not_found item e :
  Status item = 404 → Error item = Some e →
  Type_ e = "index_not_found_exception" → isSuccess item = false.
Proof.
  intros Hs He Ht. unfold isSuccess. rewrite Hs, He. simpl.
  by destruct (decide (Type_ e = "index_not_found_exception")).
Qed.

Lemma isSuccess_404_other item :
  Status item = 404 →
  (∀ e, Error item = Some e → Type_ e ≠ "index_not_found_exception") →
  isSuccess item = true.
Proof.
  intros Hs He. unfold isSuccess. rewrite Hs. simpl.
  destruct (Error item) as [e|]; [|done].
  destruct (decide (Type_ e = "index_not_found_exception")) as [Ht|]; [|done].
  by destruct (He e eq_refl).
Qed.

Lemma isSuccess_409 item : Status item = 409 → isSuccess item = true.
Proof. intros Hs. unfold isSuccess. rewrite Hs. done. Qed.

(** ** The response index *)

Lemma buildResponseIndex_flat response :
  buildResponseIndex response =
  foldl buildResponseIndex_step ∅ (responseItems response).
Proof.
  unfold buildResponseIndex, responseItems.
  generalize (∅ : gmap string BulkResponseItem).
  induction (Items response) as [|ops rest IH]; intros acc; simpl; [done|].
  rewrite IH, fmap_app, foldl_app. f_equal.
  clear. revert acc. induction ops as [|kv ops IH]; intros acc; simpl; [done|].
  apply IH.
Qed.

Lemma index_of_step items idx item :
  index_of items idx → index_of (items ++ [item]) (buildResponseIndex_step idx item).
Proof.
  intros [Hin Hall]. unfold buildResponseIndex_step.
  destruct (idx !! Id item) as [old|] eqn:Hold.
  - destruct (Hin _ _ Hold) as (Hm & Hid & Hmax).
    destruct (decide (Status old < Status item)) as [Hlt|Hge].
    + split.
      * intros id it Hl. destruct (decide (id = Id item)) as [->|Hne].
        -- rewrite lookup_insert_eq in Hl. injection Hl as <-.
           split; [apply elem_of_app; (by left) || (right; by apply list_elem_of_singleton)|]. split; [done|].
           intros it' [Hi|Hi]%elem_of_app Hid'.
           ++ specialize (Hmax it' Hi Hid'). lia.
           ++ apply list_elem_of_singleton in Hi as ->. lia.
        -- rewrite lookup_insert_ne in Hl by done.
           destruct (Hin _ _ Hl) as (? & ? & Hm').
           split; [apply elem_of_app; (by left) || (right; by apply list_elem_of_singleton)|]. split; [done|].
           intros it' [Hi|Hi]%elem_of_app Hid'; [by apply Hm'|].
           apply list_elem_of_singleton in Hi as ->. congruence.
      * intros it' [Hi|Hi]%elem_of_app.
        -- destruct (decide (Id it' = Id item)) as [->|Hne].
           ++ rewrite lookup_insert_eq. eauto.
           ++ rewrite lookup_insert_ne by done. by apply Hall.
        -- apply list_elem_of_singleton in Hi as ->.
           rewrite lookup_insert_eq. eauto.
    + split.
      * intros id it Hl. destruct (Hin _ _ Hl) as (? & Hid' & Hm').
        split; [apply elem_of_app; (by left) || (right; by apply list_elem_of_singleton)|]. split; [done|].
        intros it' [Hi|Hi]%elem_of_app Hid''; [by apply Hm'|].
        apply list_elem_of_singleton in Hi as ->.
        assert (it = old) as -> by congruence. lia.
      * intros it' [Hi|Hi]%elem_of_app; [by apply Hall|].
        apply list_elem_of_singleton in Hi as ->. eauto.
  - split.
    + intros id it Hl. destruct (decide (id = Id item)) as [->|Hne].
      * rewrite lookup_insert_eq in Hl. injection Hl as <-.
        split; [apply elem_of_app; (by left) || (right; by apply list_elem_of_singleton)|]. split; [done|].
        intros it' [Hi|Hi]%elem_of_app Hid'.
        -- destruct (Hall _ Hi) as [x Hx]. congruence.
        -- apply list_elem_of_singleton in Hi as ->. lia.
      * rewrite lookup_insert_ne in Hl by done.
        destruct (Hin _ _ Hl) as (? & ? & Hm').
        split; [apply elem_of_app; (by left) || (right; by apply list_elem_of_singleton)|]. split; [done|].
        intros it' [Hi|Hi]%elem_of_app Hid'; [by apply Hm'|].
        apply list_elem_of_singleton in Hi as ->. congruence.
    + intros it' [Hi|Hi]%elem_of_app.
      * destruct (decide (Id it' = Id item)) as [->|Hne].
        -- rewrite lookup_insert_eq. eauto.
        -- rewrite lookup_insert_ne by done. by apply Hall.
      * apply list_elem_of_singleton in Hi as ->.
        rewrite lookup_insert_eq. eauto.
Qed.

Lemma index_of_foldl items :
  index_of items (foldl buildResponseIndex_step ∅ items).
Proof.
  induction items as [|item items IH] using rev_ind.
  - simpl. split; [intros ?? Hl; by rewrite lookup_empty in Hl|].
    intros ? Hi. by apply elem_of_nil in Hi.
  - rewrite foldl_app. simpl. by apply index_of_step.
Qed.

(** C5.  The index built from a batch response maps every document id that
    occurs in the response to one of the response's items with that id, and
    no item of the response with the same id has a greater status code. *)
Theorem buildResponseIndex_greatest_status (response : BulkResponse) :
  let idx := buildResponseIndex response in
  (∀ id item, idx !! id = Some item →
     item ∈ responseItems response ∧ Id item = id
     ∧ ∀ item', item' ∈ responseItems response → Id item' = id →
         Status item' ≤ Status item)
  ∧ (∀ item', item' ∈ responseItems response → is_Some (idx !! Id item')).
Proof.
  simpl. rewrite buildResponseIndex_flat. apply index_of_foldl.
Qed.


(** ** Frame lemmas *)

#[local] Instance agree_on_refl {B} (proj : processorImpl → B) : Reflexive (agree_on proj).
Proof. by intros st. Qed.

#[local] Instance agree_on_trans {B} (proj : processorImpl → B) : Transitive (agree_on proj).
Proof. intros a b c. unfold agree_on. congruence. Qed.

Ltac keeps_prim :=
  let st := fresh "st" in
  intros st;
  unfold agree_on, core, CompareAndSwapStatus, logger_Error, logger_Warn,
    logger_Fatal, logger_log, IncCounter,
    AddCounter, RecordTimer, RecordDistribution, time_Now, make_chan, chan_send,
    chan_recv, alloc, load, store, modify, bind, panic, ret, gets;
  simpl; repeat case_match; simpl; reflexivity.

Ltac keeps_step :=
  lazymatch goal with
  | |- keeps _ (bind _ _) => apply keeps_bind; try tc_solve; [|intros ?]
  | |- keeps _ (ret _) => apply keeps_ret; try tc_solve
  | |- keeps _ (panic _) => apply keeps_panic; try tc_solve
  | |- keeps _ (gets _) => apply keeps_gets; try tc_solve
  | |- keeps _ (forEach _ _) => apply keeps_forEach; try tc_solve; intros ?
  | |- keeps _ (match ?x with _ => _ end) => destruct x
  | |- keeps _ _ => keeps_prim
  end.

Ltac keeps_auto := repeat keeps_step.

Lemma extractDocID_core request : keeps (agree_on core) (extractDocID request).
Proof. unfold extractDocID. keeps_auto.
Qed.

Lemma extractVisibilityTaskKey_core request :
  keeps (agree_on core) (extractVisibilityTaskKey request).
Proof.
  unfold extractVisibilityTaskKey. destruct (Source request); [|keeps_auto].
  case_match; [keeps_auto|apply extractDocID_core].
Qed.

Lemma hashFn_pure key : keeps eq (hashFn key).
Proof.
  intros st. unfold hashFn. destruct key; [|done].
  unfold bind, gets. simpl. by case_match.
Qed.

(** ** Stripe selection *)


(** ** The invariant and the steps that maintain it *)

Lemma view_eq st st' :
  view st = view st' →
  status st = status st' ∧ bulkProcessor st = bulkProcessor st'
  ∧ mapToAckChan st = mapToAckChan st' ∧ indexerConcurrency st = indexerConcurrency st'
  ∧ heap st = heap st' ∧ chans st = chans st' ∧ doneCalls st = doneCalls st'
  ∧ cntCorruptedData (metricsClient st) = cntCorruptedData (metricsClient st').
Proof. unfold view. intros [= -> -> -> -> -> -> -> ->]. done. Qed.

Lemma Inv_view st st' : view st = view st' → Inv st → Inv st'.
Proof.
  intros (Hs & Hb & Hm & Hc & Hh & Hch & _ & _)%view_eq [H1 H2 H3 H4 H5 H6].
  unfold ticket_of in *.
  split; unfold ticket_of; rewrite <-?Hs, <-?Hb, <-?Hm, <-?Hc, <-?Hh, <-?Hch; done.
Qed.

Lemma core_view st st' :
  core st = core st' →
  cntCorruptedData (metricsClient st) = cntCorruptedData (metricsClient st') →
  view st = view st'.
Proof. unfold core, view. intros [= -> -> -> -> -> -> _ ->] ->. done. Qed.

Ltac exec :=
  unfold ackChan_done, ackChan_start, newAckChan, logger_Error, logger_Warn,
    logger_log, IncCounter, AddCounter, RecordTimer, RecordDistribution,
    time_Now, make_chan, chan_send, chan_recv, alloc, load, store, modify,
    bind, panic, ret, gets; simpl.

Ltac exec_in H :=
  unfold ackChan_done, ackChan_start, newAckChan, logger_Error, logger_Warn,
    logger_log, IncCounter, AddCounter, RecordTimer, RecordDistribution,
    time_Now, make_chan, chan_send, chan_recv, alloc, load, store, modify,
    bind, panic, ret, gets in H; simpl in H.

Lemma ackChan_done_spec a ack t cs st :
  heap st !! a = Some t →
  chans st !! ackChInternal t = Some cs →
  (chanBuffered cs < chanCap cs)%nat →
  ∃ st', ackChan_done a ack st = Ok tt st'
    ∧ view st' = view (set_chans
        (<[ackChInternal t := mkChan (chanCap cs) (chanSent cs ++ [ack]) (chanRecv cs)]> (chans st))
        (set_doneCalls (doneCalls st ++ [(a, ack)]) st)).
Proof.
  intros Ha Hc Hb. exec. rewrite Ha. simpl. rewrite Hc. simpl.
  destruct (decide (chanBuffered cs < chanCap cs)%nat) as [_|]; [|done]. simpl.
  destruct (decide (startedAt t = 0%nat)); simpl; eexists; (split; [done|]); done.
Qed.

Lemma ackChan_start_spec a t st :
  heap st !! a = Some t →
  ∃ st' now, ackChan_start a st = Ok tt st'
    ∧ view st' = view (set_heap
        (<[a := mkAckChan (ackChInternal t) (addedAt t) now]> (heap st)) st).
Proof.
  intros Ha. exec. rewrite Ha. simpl. rewrite Ha. simpl.
  eexists _, _. split; done.
Qed.

Ltac view_solve :=
  repeat match goal with
         | H : view _ = view _ |- _ => apply view_eq in H; simpl in H; destruct_and? H
         end;
  unfold view; simpl in *; congruence.

Lemma sendToAckChan_absent key ack m st :
  mapToAckChan st = Some m → indexerConcurrency st ≠ 0 → m !! key = None →
  sendToAckChan key ack st = Ok tt st.
Proof.
  intros Hm Hc Hk. unfold sendToAckChan, RemoveIf, hashFn. exec.
  rewrite Hm. simpl. destruct (decide (indexerConcurrency st = 0)); [done|].
  simpl. rewrite Hm, Hk. done.
Qed.

Lemma sendToAckChan_present key ack m a t cs st :
  mapToAckChan st = Some m → indexerConcurrency st ≠ 0 → m !! key = Some a →
  heap st !! a = Some t →
  chans st !! ackChInternal t = Some cs →
  (chanBuffered cs < chanCap cs)%nat →
  ∃ st', sendToAckChan key ack st = Ok tt st'
    ∧ view st' = view (set_mapToAckChan (Some (delete key m)) (set_chans
        (<[ackChInternal t := mkChan (chanCap cs) (chanSent cs ++ [ack]) (chanRecv cs)]> (chans st))
        (set_doneCalls (doneCalls st ++ [(a, ack)]) st))).
Proof.
  intros Hm Hc Hk Ha Hch Hb.
  destruct (ackChan_done_spec a ack t cs st Ha Hch Hb) as (st1 & Hd & Hv).
  unfold sendToAckChan, RemoveIf, hashFn, bind, gets, modify, ret, panic. simpl.
  rewrite Hm. simpl. destruct (decide (indexerConcurrency st = 0)); [done|].
  simpl. rewrite Hm, Hk. rewrite Hd. simpl.
  eexists. split; [done|].
  assert (mapToAckChan st1 = Some m) as ->; [|view_solve].
  apply view_eq in Hv. simpl in Hv. destruct_and? Hv. congruence.
Qed.

Lemma newAckChan_eq st :
  newAckChan st =
  Ok (length (heap st))
     (set_heap (heap st ++ [mkAckChan (length (chans st)) (S (clock st)) 0])
        (set_clock (S (clock st))
           (set_chans (chans st ++ [mkChan 1 [] 0]) st))).
Proof. done. Qed.

Lemma Add_fresh request key m q st :
  mapToAckChan st = Some m → indexerConcurrency st ≠ 0 → m !! key = None →
  bulkProcessor st = Some q →
  ∃ st', Add request key st = Ok (length (chans st)) st'
    ∧ view st' = view (set_bulkProcessor (Some (q ++ [request]))
        (set_mapToAckChan (Some (<[key := length (heap st)]> m))
        (set_heap (heap st ++ [mkAckChan (length (chans st)) (S (clock st)) 0])
        (set_chans (chans st ++ [mkChan 1 [] 0]) st)))).
Proof.
  intros Hm Hc Hk Hq. unfold Add, bind at 1. rewrite newAckChan_eq.
  unfold bind at 1. unfold load at 1. simpl.
  rewrite lookup_app_r, Nat.sub_diag by done. simpl.
  unfold PutOrDo, hashFn, bulkProcessor_Add, bind, gets, modify, ret, panic. simpl.
  rewrite Hm. simpl. destruct (decide (indexerConcurrency st = 0)); [done|].
  simpl. rewrite Hm, Hk. simpl. rewrite Hq. simpl.
  eexists. split; done.
Qed.

Lemma Add_duplicate request key m a t cs st :
  mapToAckChan st = Some m → indexerConcurrency st ≠ 0 → m !! key = Some a →
  heap st !! a = Some t →
  chans st !! ackChInternal t = Some cs →
  (chanBuffered cs < chanCap cs)%nat →
  ∃ st', Add request key st = Ok (length (chans st)) st'
    ∧ view st' = view
        (set_heap (<[a := mkAckChan (length (chans st)) (S (clock st)) 0]>
                     (heap st ++ [mkAckChan (length (chans st)) (S (clock st)) 0]))
        (set_chans
           (<[ackChInternal t := mkChan (chanCap cs) (chanSent cs ++ [false]) (chanRecv cs)]>
              (chans st ++ [mkChan 1 [] 0]))
        (set_doneCalls (doneCalls st ++ [(a, false)]) st))).
Proof.
  intros Hm Hc Hk Ha Hch Hb.
  pose proof (lookup_lt_Some _ _ _ Ha) as Hlt.
  pose proof (lookup_lt_Some _ _ _ Hch) as Hclt.
  unfold Add, PutOrDo, hashFn, bulkProcessor_Add. exec.
  rewrite lookup_app_r, Nat.sub_diag by done. simpl.
  rewrite Hm. simpl.
  destruct (decide (indexerConcurrency st = 0)); [done|]. simpl.
  rewrite Hm, Hk. simpl.
  rewrite (lookup_app_l _ _ a), Ha by done. simpl.
  rewrite (lookup_app_l _ _ (ackChInternal t)), Hch by done. simpl.
  destruct (decide (chanBuffered cs < chanCap cs)%nat) as [_|]; [|done]. simpl.
  assert (a ≠ length (heap st)) as Hne by lia.
  destruct (decide (startedAt t = 0%nat)); simpl;
    repeat (first
      [ rewrite list_lookup_insert_eq by (rewrite ?length_insert, length_app; simpl; lia)
      | rewrite (list_lookup_insert_ne _ a (length (heap st))) by done
      | rewrite (lookup_app_l _ _ a) by done
      | rewrite Ha
      | rewrite lookup_app_r, Nat.sub_diag by done ]; simpl);
    rewrite !list_insert_insert_eq;
    (eexists; split; [done|]); done.
Qed.

Lemma Inv_started_map st :
  Inv st → status st = DaemonStatusStarted →
  ∃ m q, mapToAckChan st = Some m ∧ bulkProcessor st = Some q.
Proof.
  intros HI Hs. pose proof (inv_life st HI) as Hl.
  destruct (decide (status st = DaemonStatusStarted)); [|done].
  destruct Hl as [[m ?] [q ?]]. eauto.
Qed.

Lemma Inv_map_started st m :
  Inv st → mapToAckChan st = Some m → status st = DaemonStatusStarted.
Proof.
  intros HI Hm. pose proof (inv_life st HI) as Hl.
  destruct (decide (status st = DaemonStatusStarted)); [done|].
  destruct Hl. congruence.
Qed.

Lemma Inv_ticket st m key a :
  Inv st → mapToAckChan st = Some m → m !! key = Some a →
  ∃ t cs, heap st !! a = Some t ∧ chans st !! ackChInternal t = Some cs
          ∧ chanSent cs = [] ∧ chanCap cs = 1%nat
          ∧ (chanBuffered cs < chanCap cs)%nat.
Proof.
  intros HI Hm Hk. destruct (inv_map_heap st HI m key a Hm Hk) as [t Ht].
  destruct (inv_map st HI key a t) as (cs & Hcs & Hsent); [by exists m|].
  destruct (inv_chan st HI _ _ Hcs) as [Hcap _].
  exists t, cs. repeat split; try done.
  unfold chanBuffered. rewrite Hsent, Hcap. simpl. lia.
Qed.

(** Completing the ticket of [key] and unmapping it keeps the invariant. *)
Lemma Inv_done_remove st m key a t cs ack calls :
  Inv st → mapToAckChan st = Some m → m !! key = Some a →
  heap st !! a = Some t → chans st !! ackChInternal t = Some cs →
  Inv (set_mapToAckChan (Some (delete key m)) (set_chans
        (<[ackChInternal t := mkChan (chanCap cs) (chanSent cs ++ [ack]) (chanRecv cs)]> (chans st))
        (set_doneCalls calls st))).
Proof.
  intros HI Hm Hk Ha Hch.
  destruct (inv_map st HI key a t) as (cs' & Hcs' & Hsent); [by exists m|].
  assert (cs' = cs) as -> by congruence.
  split; unfold ticket_of; simpl.
  - intros c x Hx. destruct (decide (c = ackChInternal t)) as [->|Hne].
    + rewrite list_lookup_insert_eq in Hx by (by eapply lookup_lt_Some).
      injection Hx as <-. simpl. destruct (inv_chan st HI _ _ Hch) as [-> _].
      rewrite Hsent. simpl. split; [done|lia].
    + rewrite list_lookup_insert_ne in Hx by done. by apply (inv_chan st HI c).
  - intros a' t' Ht'. rewrite length_insert. by apply (inv_heap st HI a').
  - intros k a' t' (m' & [= <-] & Hk' & Ht').
    destruct (decide (k = key)) as [->|Hne]; [by rewrite lookup_delete_eq in Hk'|].
    rewrite lookup_delete_ne in Hk' by done.
    destruct (inv_map st HI k a' t') as (cs1 & Hcs1 & Hs1); [by exists m|].
    exists cs1. split; [|done]. rewrite list_lookup_insert_ne; [done|].
    intros Heq. apply Hne. apply (inv_sep st HI k key a' a t' t); [by exists m..|done].
  - intros m' k a' [= <-] Hk'.
    destruct (decide (k = key)) as [->|Hne]; [by rewrite lookup_delete_eq in Hk'|].
    rewrite lookup_delete_ne in Hk' by done. by apply (inv_map_heap st HI m k).
  - intros k1 k2 a1 a2 t1 t2 (m1 & [= <-] & Hk1 & Ht1) (m2 & [= <-] & Hk2 & Ht2) Hc.
    apply lookup_delete_Some in Hk1 as [_ Hk1]. apply lookup_delete_Some in Hk2 as [_ Hk2].
    apply (inv_sep st HI k1 k2 a1 a2 t1 t2); [by exists m..|done].
  - pose proof (inv_life st HI) as Hl. rewrite Hm in Hl.
    destruct (decide (status st = DaemonStatusStarted)); [|by destruct Hl].
    split; [eauto|apply Hl].
Qed.

(** Rewriting a ticket's instants keeps the invariant. *)
Lemma Inv_store_times st a t added started :
  Inv st → heap st !! a = Some t →
  Inv (set_heap (<[a := mkAckChan (ackChInternal t) added started]> (heap st)) st).
Proof.
  intros HI Ha.
  assert (Hlk : ∀ a' t', <[a := mkAckChan (ackChInternal t) added started]> (heap st) !! a' = Some t' →
            ∃ t0, heap st !! a' = Some t0 ∧ ackChInternal t0 = ackChInternal t').
  { intros a' t' Hl. destruct (decide (a' = a)) as [->|Hne].
    - rewrite list_lookup_insert_eq in Hl by (by eapply lookup_lt_Some).
      injection Hl as <-. eauto.
    - rewrite list_lookup_insert_ne in Hl by done. eauto. }
  split; unfold ticket_of; simpl.
  - apply (inv_chan st HI).
  - intros a' t' (t0 & Ht0 & <-)%Hlk. by apply (inv_heap st HI a').
  - intros k a' t' (m & Hm & Hk & (t0 & Ht0 & <-)%Hlk).
    apply (inv_map st HI k a' t0). by exists m.
  - intros m k a' Hm Hk. destruct (inv_map_heap st HI m k a' Hm Hk) as [t0 Ht0].
    destruct (decide (a' = a)) as [->|Hne].
    + rewrite list_lookup_insert_eq by (by eapply lookup_lt_Some). eauto.
    + rewrite list_lookup_insert_ne by done. eauto.
  - intros k1 k2 a1 a2 t1 t2 (m1 & Hm1 & Hk1 & (u1 & Hu1 & <-)%Hlk)
      (m2 & Hm2 & Hk2 & (u2 & Hu2 & <-)%Hlk) Hc.
    apply (inv_sep st HI k1 k2 a1 a2 u1 u2); [by exists m1|by exists m2|done].
  - apply (inv_life st HI).
Qed.

Lemma snoc_lookup_Some {A} (l : list A) x i y :
  (l ++ [x]) !! i = Some y → l !! i = Some y ∨ (i = length l ∧ y = x).
Proof.
  intros [?|[Hle Hl]]%lookup_app_Some; [by left|right].
  apply list_lookup_singleton_Some in Hl as [Hi ->]. split; [lia|done].
Qed.

(** Registering a fresh ticket with a fresh channel keeps the invariant. *)
Lemma Inv_Add_fresh st m key q now bp :
  Inv st → mapToAckChan st = Some m → m !! key = None → bulkProcessor st = Some q →
  Inv (set_bulkProcessor (Some bp)
        (set_mapToAckChan (Some (<[key := length (heap st)]> m))
        (set_heap (heap st ++ [mkAckChan (length (chans st)) now 0])
        (set_chans (chans st ++ [mkChan 1 [] 0]) st)))).
Proof.
  intros HI Hm Hk Hq.
  assert (Hold : ∀ k a, m !! k = Some a → (a < length (heap st))%nat).
  { intros k a Hka. destruct (inv_map_heap st HI m k a Hm Hka) as [t Ht].
    by eapply lookup_lt_Some. }
  assert (Htk : ∀ k a t,
    <[key := length (heap st)]> m !! k = Some a →
    (heap st ++ [mkAckChan (length (chans st)) now 0]) !! a = Some t →
    (k = key ∧ a = length (heap st) ∧ t = mkAckChan (length (chans st)) now 0)
    ∨ (k ≠ key ∧ m !! k = Some a ∧ heap st !! a = Some t)).
  { intros k a t Hka Hat. destruct (decide (k = key)) as [->|Hne].
    - rewrite lookup_insert_eq in Hka. injection Hka as <-.
      apply snoc_lookup_Some in Hat as [Hat|[_ ->]]; [|by left].
      apply lookup_lt_Some in Hat. lia.
    - rewrite lookup_insert_ne in Hka by done. right.
      apply snoc_lookup_Some in Hat as [Hat|[-> _]]; [done|].
      apply Hold in Hka. lia. }
  split; unfold ticket_of; simpl.
  - intros c cs [Hc|[_ ->]]%snoc_lookup_Some; [by apply (inv_chan st HI c)|].
    simpl. split; [done|lia].
  - intros a t [Ha|[_ ->]]%snoc_lookup_Some; rewrite length_app; simpl; [|lia].
    apply (inv_heap st HI) in Ha. lia.
  - intros k a t (m' & [= <-] & Hka & Hat).
    destruct (Htk _ _ _ Hka Hat) as [(-> & -> & ->)|(Hne & Hka' & Hat')].
    + simpl. exists (mkChan 1 [] 0). split; [|done].
      by rewrite lookup_app_r, Nat.sub_diag.
    + destruct (inv_map st HI k a t) as (cs & Hcs & Hs); [by exists m|].
      exists cs. split; [|done]. by apply lookup_app_l_Some.
  - intros m' k a [= <-] Hka. destruct (decide (k = key)) as [->|Hne].
    + rewrite lookup_insert_eq in Hka. injection Hka as <-.
      rewrite lookup_app_r, Nat.sub_diag by done. simpl. eauto.
    + rewrite lookup_insert_ne in Hka by done.
      destruct (inv_map_heap st HI m k a Hm Hka) as [t Ht].
      exists t. by apply lookup_app_l_Some.
  - intros k1 k2 a1 a2 t1 t2 (m1 & [= <-] & Hk1 & Ht1) (m2 & [= <-] & Hk2 & Ht2) Hc.
    destruct (Htk _ _ _ Hk1 Ht1) as [(-> & -> & ->)|(Hne1 & Hk1' & Ht1')];
      destruct (Htk _ _ _ Hk2 Ht2) as [(-> & -> & ->)|(Hne2 & Hk2' & Ht2')];
      simpl in *; try done.
    + apply (inv_heap st HI) in Ht2'. lia.
    + apply (inv_heap st HI) in Ht1'. lia.
    + apply (inv_sep st HI k1 k2 a1 a2 t1 t2); [by exists m..|done].
  - rewrite (Inv_map_started st m HI Hm).
    destruct (decide (DaemonStatusStarted = DaemonStatusStarted)); [|done].
    split; eauto.
Qed.

(** Completing a mapped ticket and re-pointing it at a fresh channel keeps
    the invariant. *)
Lemma Inv_Add_duplicate st m key a t cs now calls :
  Inv st → mapToAckChan st = Some m → m !! key = Some a →
  heap st !! a = Some t → chans st !! ackChInternal t = Some cs →
  Inv (set_heap (<[a := mkAckChan (length (chans st)) now 0]>
                   (heap st ++ [mkAckChan (length (chans st)) now 0]))
      (set_chans
         (<[ackChInternal t := mkChan (chanCap cs) (chanSent cs ++ [false]) (chanRecv cs)]>
            (chans st ++ [mkChan 1 [] 0]))
      (set_doneCalls calls st))).
Proof.
  intros HI Hm Hk Ha Hch.
  pose proof (lookup_lt_Some _ _ _ Ha) as Halt.
  pose proof (lookup_lt_Some _ _ _ Hch) as Hclt.
  destruct (inv_map st HI key a t) as (cs' & Hcs' & Hsent); [by exists m|].
  assert (cs' = cs) as -> by congruence.
  set (new := mkAckChan (length (chans st)) now 0).
  assert (Hhp : ∀ a' t', <[a := new]> (heap st ++ [new]) !! a' = Some t' →
            (t' = new ∧ (a' = a ∨ a' = length (heap st)))
            ∨ (a' ≠ a ∧ heap st !! a' = Some t')).
  { intros a' t' Hl. destruct (decide (a' = a)) as [->|Hne].
    - rewrite list_lookup_insert_eq in Hl by (rewrite length_app; simpl; lia).
      injection Hl as <-. left. auto.
    - rewrite list_lookup_insert_ne in Hl by done.
      apply snoc_lookup_Some in Hl as [Hl|[-> ->]]; [by right|left; auto]. }
  assert (Hmp : ∀ k a' t', m !! k = Some a' →
            <[a := new]> (heap st ++ [new]) !! a' = Some t' →
            (k = key ∧ a' = a ∧ t' = new)
            ∨ (k ≠ key ∧ a' ≠ a ∧ heap st !! a' = Some t')).
  { intros k a' t' Hka Hl.
    destruct (inv_map_heap st HI m k a' Hm Hka) as [u Hu].
    destruct (Hhp _ _ Hl) as [[-> [-> | ->]]|[Hne Hl']].
    - left. split; [|done]. apply (inv_sep st HI k key a a t t); [by exists m..|done].
    - apply lookup_lt_Some in Hu. lia.
    - right. split; [|done]. intros ->. congruence. }
  split; unfold ticket_of; simpl.
  - intros c x Hx. destruct (decide (c = ackChInternal t)) as [->|Hne].
    + rewrite list_lookup_insert_eq in Hx by (rewrite length_app; simpl; lia).
      injection Hx as <-. simpl. destruct (inv_chan st HI _ _ Hch) as [-> _].
      rewrite Hsent. simpl. split; [done|lia].
    + rewrite list_lookup_insert_ne in Hx by done.
      apply snoc_lookup_Some in Hx as [Hx|[_ ->]]; [by apply (inv_chan st HI c)|].
      simpl. split; [done|lia].
  - intros a' t' Hl. rewrite length_insert, length_app. simpl.
    destruct (Hhp _ _ Hl) as [[-> _]|[_ Hl']]; simpl; [lia|].
    apply (inv_heap st HI) in Hl'. lia.
  - intros k a' t' (m' & Hm' & Hka & Hl). assert (m' = m) as -> by congruence.
    destruct (Hmp _ _ _ Hka Hl) as [(-> & -> & ->)|(Hnk & Hna & Hl')].
    + simpl. exists (mkChan 1 [] 0). split; [|done].
      rewrite list_lookup_insert_ne by lia.
      by rewrite lookup_app_r, Nat.sub_diag.
    + destruct (inv_map st HI k a' t') as (cs1 & Hcs1 & Hs1); [by exists m|].
      exists cs1. split; [|done].
      rewrite list_lookup_insert_ne.
      * by apply lookup_app_l_Some.
      * intros Heq. apply Hnk.
        apply (inv_sep st HI k key a' a t' t); [by exists m..|done].
  - intros m' k a' Hm' Hka. assert (m' = m) as -> by congruence.
    destruct (inv_map_heap st HI m k a' Hm Hka) as [u Hu].
    apply lookup_lt_is_Some. rewrite length_insert, length_app. simpl.
    apply lookup_lt_Some in Hu. lia.
  - intros k1 k2 a1 a2 t1 t2 (m1 & Hm1 & Hk1 & Hl1) (m2 & Hm2 & Hk2 & Hl2) Hc.
    assert (m1 = m) as -> by congruence. assert (m2 = m) as -> by congruence.
    destruct (Hmp _ _ _ Hk1 Hl1) as [(-> & -> & ->)|(Hnk1 & Hna1 & Hl1')];
      destruct (Hmp _ _ _ Hk2 Hl2) as [(-> & -> & ->)|(Hnk2 & Hna2 & Hl2')];
      simpl in *; try done.
    + apply (inv_heap st HI) in Hl2'. lia.
    + apply (inv_heap st HI) in Hl1'. lia.
    + apply (inv_sep st HI k1 k2 a1 a2 t1 t2); [by exists m..|done].
  - apply (inv_life st HI).
Qed.

Lemma preserves_ret P {A} (a : A) : preserves P (ret a).
Proof. intros st a' st' HP [= _ <-]. done. Qed.

Lemma preserves_bind P {A B} (m : M A) (k : A → M B) :
  preserves P m → (∀ a, preserves P (k a)) → preserves P (bind m k).
Proof.
  intros Hm Hk st b st' HP. unfold bind.
  destruct (m st) as [a st1|] eqn:E; [|done].
  intros Hk'. eapply Hk; [|exact Hk']. eapply Hm; [exact HP|exact E].
Qed.

Lemma preserves_forEach P {A} (f : A → M unit) l :
  (∀ x, preserves P (f x)) → preserves P (forEach f l).
Proof.
  intros Hf. induction l as [|x l IH]; simpl.
  - apply preserves_ret.
  - apply preserves_bind; [apply Hf|intros _; exact IH].
Qed.

Lemma Inv_core st st' : core st = core st' → Inv st → Inv st'.
Proof.
  unfold core. intros [= Hs Hb Hm Hc Hh Hch _ _] [H1 H2 H3 H4 H5 H6].
  unfold ticket_of in *.
  split; unfold ticket_of; rewrite <-?Hs, <-?Hb, <-?Hm, <-?Hc, <-?Hh, <-?Hch; done.
Qed.

Lemma keeps_core_preserves {A} (m : M A) :
  keeps (agree_on core) m → preserves Inv m.
Proof.
  intros Hk st a st' HI E. specialize (Hk st). rewrite E in Hk.
  by apply (Inv_core st).
Qed.

Lemma sendToAckChan_Inv key ack : preserves Inv (sendToAckChan key ack).
Proof.
  intros st [] st' HI E.
  destruct (mapToAckChan st) as [m|] eqn:Hm.
  - assert (indexerConcurrency st ≠ 0) as Hc.
    { intros H0. unfold sendToAckChan, RemoveIf, hashFn, bind, gets, panic in E.
      simpl in E. rewrite Hm in E. simpl in E.
      by destruct (decide (indexerConcurrency st = 0)). }
    destruct (m !! key) as [a|] eqn:Hk.
    + destruct (Inv_ticket st m key a HI Hm Hk) as (t & cs & Ha & Hch & _ & _ & Hb).
      destruct (sendToAckChan_present key ack m a t cs st Hm Hc Hk Ha Hch Hb)
        as (st1 & E1 & Hv).
      assert (st1 = st') as -> by congruence.
      eapply Inv_view; [symmetry; exact Hv|]. by apply (Inv_done_remove st m key a t cs).
    + rewrite (sendToAckChan_absent key ack m st Hm Hc Hk) in E.
      by injection E as <-.
  - unfold sendToAckChan, RemoveIf, bind, gets, panic in E. simpl in E.
    rewrite Hm in E. done.
Qed.

Lemma GetAndDo_start_Inv key :
  preserves Inv (GetAndDo key (fun _ ackCh => ackChan_start ackCh)).
Proof.
  intros st b st' HI E.
  unfold GetAndDo, hashFn, bind, gets, panic, ret in E. simpl in E.
  destruct (mapToAckChan st) as [m|] eqn:Hm; [|done]. simpl in E.
  destruct (decide (indexerConcurrency st = 0)); [done|]. simpl in E.
  rewrite Hm in E. destruct (m !! key) as [a|] eqn:Hk.
  - destruct (Inv_ticket st m key a HI Hm Hk) as (t & cs & Ha & _).
    destruct (ackChan_start_spec a t st Ha) as (st1 & now & E1 & Hv).
    rewrite E1 in E. injection E as _ <-.
    eapply Inv_view; [symmetry; exact Hv|]. by apply Inv_store_times.
  - by injection E as _ <-.
Qed.

Lemma Add_Inv request key : preserves Inv (Add request key).
Proof.
  intros st c st' HI E.
  destruct (mapToAckChan st) as [m|] eqn:Hm.
  - assert (indexerConcurrency st ≠ 0) as Hc.
    { intros H0. unfold Add, PutOrDo, hashFn in E. exec_in E.
      rewrite lookup_app_r, Nat.sub_diag in E by done. simpl in E.
      rewrite Hm in E. simpl in E.
      by destruct (decide (indexerConcurrency st = 0)). }
    destruct (m !! key) as [a|] eqn:Hk.
    + destruct (Inv_ticket st m key a HI Hm Hk) as (t & cs & Ha & Hch & _ & _ & Hb).
      destruct (Add_duplicate request key m a t cs st Hm Hc Hk Ha Hch Hb)
        as (st1 & E1 & Hv).
      assert (st1 = st') as -> by congruence.
      eapply Inv_view; [symmetry; exact Hv|]. by apply (Inv_Add_duplicate st m key a t cs).
    + destruct (Inv_started_map st HI (Inv_map_started st m HI Hm)) as (m' & q & Hm' & Hq).
      destruct (Add_fresh request key m q st Hm Hc Hk Hq) as (st1 & E1 & Hv).
      assert (st1 = st') as -> by congruence.
      eapply Inv_view; [symmetry; exact Hv|]. by apply (Inv_Add_fresh st m key q).
  - unfold Add, PutOrDo in E. exec_in E.
    rewrite lookup_app_r, Nat.sub_diag in E by done. simpl in E.
    rewrite Hm in E. done.
Qed.

Lemma Start_Inv runErr : preserves Inv (Start runErr).
Proof.
  intros st [] st' HI E. unfold Start, CompareAndSwapStatus, logger_Fatal in E.
  exec_in E. pose proof (inv_life st HI) as Hl.
  destruct (decide (status st = DaemonStatusInitialized)) as [Hs|Hs]; simpl in E.
  - destruct runErr; simpl in E; [done|]. injection E as <-.
    rewrite Hs in Hl. simpl in Hl. destruct Hl as [Hm Hb].
    split; unfold ticket_of; simpl;
      [apply (inv_chan st HI)|apply (inv_heap st HI)|
       by intros k a t (m & [= <-] & ? & _)|by intros m k a [= <-] ?|
       by intros ??????(m & [= <-] & ? & _)|split; eauto].
  - by injection E as <-.
Qed.

Lemma Stop_Inv stopErr : preserves Inv (Stop stopErr).
Proof.
  intros st [] st' HI E. unfold Stop, CompareAndSwapStatus, logger_Fatal in E.
  exec_in E.
  destruct (decide (status st = DaemonStatusStarted)) as [Hs|Hs]; simpl in E.
  - destruct (bulkProcessor st); [|done].
    destruct stopErr; simpl in E; [done|]. injection E as <-.
    split; unfold ticket_of; simpl;
      [apply (inv_chan st HI)|apply (inv_heap st HI)|
       by intros k a t (m & [=] & _)|by intros m k a [=]|
       by intros ??????(m & [=] & _)|done].
  - by injection E as <-.
Qed.

Lemma chan_recv_Inv c : preserves Inv (chan_recv c).
Proof.
  intros st b st' HI E. unfold chan_recv in E.
  destruct (chans st !! c) as [cs|] eqn:Hc; [|done].
  destruct (chanSent cs !! chanRecv cs); [|done]. injection E as _ <-.
  split; unfold ticket_of; simpl.
  - intros c' x Hx. destruct (decide (c' = c)) as [->|Hne].
    + rewrite list_lookup_insert_eq in Hx by (by eapply lookup_lt_Some).
      injection Hx as <-. simpl. by apply (inv_chan st HI c).
    + rewrite list_lookup_insert_ne in Hx by done. by apply (inv_chan st HI c').
  - intros a t Ht. rewrite length_insert. by apply (inv_heap st HI a).
  - intros k a t Htk. destruct (inv_map st HI k a t Htk) as (cs1 & Hcs1 & Hs1).
    destruct (decide (ackChInternal t = c)) as [Heq|Hne].
    + rewrite Heq in *. assert (cs1 = cs) as -> by congruence.
      eexists. rewrite list_lookup_insert_eq by (by eapply lookup_lt_Some).
      split; [done|]. done.
    + exists cs1. by rewrite list_lookup_insert_ne.
  - apply (inv_map_heap st HI).
  - apply (inv_sep st HI).
  - apply (inv_life st HI).
Qed.

Ltac preserves_prim := apply keeps_core_preserves; keeps_auto.

Lemma bulkBeforeAction_Inv requests : preserves Inv (bulkBeforeAction requests).
Proof.
  unfold bulkBeforeAction.
  apply preserves_bind; [preserves_prim|intros _].
  apply preserves_bind; [preserves_prim|intros _].
  apply preserves_forEach. intros request.
  apply preserves_bind;
    [apply keeps_core_preserves, extractVisibilityTaskKey_core|intros key].
  destruct (decide (key = "")); [apply preserves_ret|].
  apply preserves_bind; [apply GetAndDo_start_Inv|intros _; apply preserves_ret].
Qed.

Lemma bulkAfterAction_failed_Inv isRetryable request :
  preserves Inv (bulkAfterAction_failed isRetryable request).
Proof.
  unfold bulkAfterAction_failed.
  apply preserves_bind; [preserves_prim|intros _].
  apply preserves_bind; [preserves_prim|intros _].
  destruct isRetryable; simpl; [apply preserves_ret|].
  apply preserves_bind;
    [apply keeps_core_preserves, extractVisibilityTaskKey_core|intros key].
  destruct (decide (key = "")); [apply preserves_ret|apply sendToAckChan_Inv].
Qed.

Lemma bulkAfterAction_item_Inv idx request :
  preserves Inv (bulkAfterAction_item idx request).
Proof.
  unfold bulkAfterAction_item.
  apply preserves_bind;
    [apply keeps_core_preserves, extractVisibilityTaskKey_core|intros key].
  destruct (decide (key = "")); [apply preserves_ret|].
  apply preserves_bind; [apply keeps_core_preserves, extractDocID_core|intros docID].
  destruct (idx !! docID) as [item|].
  - destruct (isSuccess item); [apply sendToAckChan_Inv|].
    destruct (negb (IsRetryableStatus (Status item))).
    + apply preserves_bind; [preserves_prim|intros _].
      apply preserves_bind; [preserves_prim|intros _]. apply sendToAckChan_Inv.
    + preserves_prim.
  - apply preserves_bind; [preserves_prim|intros _].
    apply preserves_bind; [preserves_prim|intros _]. apply sendToAckChan_Inv.
Qed.

Lemma bulkAfterAction_Inv requests response err :
  preserves Inv (bulkAfterAction requests response err).
Proof.
  unfold bulkAfterAction. destruct err as [e|].
  - apply preserves_bind; [preserves_prim|intros _].
    apply preserves_forEach. intros r. apply bulkAfterAction_failed_Inv.
  - destruct response as [response|]; [|preserves_prim].
    apply preserves_forEach. intros r. apply bulkAfterAction_item_Inv.
Qed.

Lemma call_Inv c : preserves Inv (call c).
Proof.
  destruct c; simpl.
  - apply Start_Inv.
  - apply Stop_Inv.
  - apply preserves_bind; [apply Add_Inv|intros _; apply preserves_ret].
  - apply bulkBeforeAction_Inv.
  - apply bulkAfterAction_Inv.
  - apply preserves_bind; [apply chan_recv_Inv|intros _; apply preserves_ret].
Qed.

Lemma NewProcessor_Inv cfg : Inv (NewProcessor cfg).
Proof.
  split; unfold ticket_of; simpl; try done.
  - intros k a t (m & [=] & _).
  - intros k1 k2 a1 a2 t1 t2 (m & [=] & _).
Qed.

Lemma reachable_Inv cfg st : reachable cfg st → Inv st.
Proof.
  intros Hr. induction Hr as [|st c st' _ IH E].
  - apply NewProcessor_Inv.
  - by apply (call_Inv c st tt st').
Qed.

(** ** Lifecycle *)

Ltac keeps_unfold :=
  unfold call, Start, Stop, bulkBeforeAction, bulkAfterAction, bulkAfterAction_failed,
    bulkAfterAction_item, extractVisibilityTaskKey, extractDocID, Add,
    sendToAckChan, PutOrDo, GetAndDo, RemoveIf, hashFn, bulkProcessor_Add,
    ackChan_done, ackChan_start, newAckChan.

Lemma Add_status request key : keeps (agree_on status) (Add request key).
Proof. keeps_unfold. keeps_auto. Qed.

Lemma bulkBeforeAction_status requests :
  keeps (agree_on status) (bulkBeforeAction requests).
Proof. keeps_unfold. keeps_auto. Qed.

Lemma bulkAfterAction_status requests response err :
  keeps (agree_on status) (bulkAfterAction requests response err).
Proof. keeps_unfold. keeps_auto. Qed.

(** C6.  The status moves only from Initialized to Started, by [Start], and
    from Started to Stopped, by [Stop], each through the compare-and-swap; a
    [Start] in any other status than Initialized and a [Stop] in any other
    status than Started return at once and leave the whole state as it is. *)
Theorem status_one_way (st : processorImpl) :
  (∀ runErr, status st ≠ DaemonStatusInitialized → Start runErr st = Ok tt st)
  ∧ (∀ stopErr, status st ≠ DaemonStatusStarted → Stop stopErr st = Ok tt st)
  ∧ (∀ runErr, status st = DaemonStatusInitialized →
       CompareAndSwapStatus DaemonStatusInitialized DaemonStatusStarted st
         = Ok true (set_status DaemonStatusStarted st)
       ∧ status (final (Start runErr st)) = DaemonStatusStarted)
  ∧ (∀ stopErr, status st = DaemonStatusStarted →
       CompareAndSwapStatus DaemonStatusStarted DaemonStatusStopped st
         = Ok true (set_status DaemonStatusStopped st)
       ∧ status (final (Stop stopErr st)) = DaemonStatusStopped)
  ∧ (∀ c, status (final (call c st)) = status st
          ∨ (status st = DaemonStatusInitialized
             ∧ status (final (call c st)) = DaemonStatusStarted
             ∧ ∃ runErr, c = CallStart runErr)
          ∨ (status st = DaemonStatusStarted
             ∧ status (final (call c st)) = DaemonStatusStopped
             ∧ ∃ stopErr, c = CallStop stopErr)).
Proof.
  assert (HS : ∀ runErr, status st = DaemonStatusInitialized →
            status (final (Start runErr st)) = DaemonStatusStarted).
  { intros runErr Hs. unfold Start, CompareAndSwapStatus, logger_Fatal. exec.
    destruct (decide (status st = DaemonStatusInitialized)); [|done].
    by destruct runErr. }
  assert (HT : ∀ stopErr, status st = DaemonStatusStarted →
            status (final (Stop stopErr st)) = DaemonStatusStopped).
  { intros stopErr Hs. unfold Stop, CompareAndSwapStatus, logger_Fatal. exec.
    destruct (decide (status st = DaemonStatusStarted)); [|done]. simpl.
    destruct (bulkProcessor st); [|done]. by destruct stopErr. }
  assert (HS' : ∀ runErr, status st ≠ DaemonStatusInitialized →
            Start runErr st = Ok tt st).
  { intros runErr Hs. unfold Start, CompareAndSwapStatus, bind.
    by destruct (decide (status st = DaemonStatusInitialized)). }
  assert (HT' : ∀ stopErr, status st ≠ DaemonStatusStarted →
            Stop stopErr st = Ok tt st).
  { intros stopErr Hs. unfold Stop, CompareAndSwapStatus, bind.
    by destruct (decide (status st = DaemonStatusStarted)). }
  split; [exact HS'|]. split; [exact HT'|].
  split.
  { intros runErr Hs. split; [|by apply HS]. unfold CompareAndSwapStatus.
    by destruct (decide (status st = DaemonStatusInitialized)). }
  split.
  { intros stopErr Hs. split; [|by apply HT]. unfold CompareAndSwapStatus.
    by destruct (decide (status st = DaemonStatusStarted)). }
  intros [runErr|stopErr|request key|requests|requests response err|c]; simpl.
  - destruct (decide (status st = DaemonStatusInitialized)) as [Hs|Hs].
    + right. left. eauto.
    + left. by rewrite HS'.
  - destruct (decide (status st = DaemonStatusStarted)) as [Hs|Hs].
    + right. right. eauto.
    + left. by rewrite HT'.
  - left. symmetry. apply (keeps_bind (agree_on status)); [apply Add_status|].
    intros ?. apply keeps_ret; tc_solve.
  - left. symmetry. apply bulkBeforeAction_status.
  - left. symmetry. apply bulkAfterAction_status.
  - left. unfold chan_recv, bind. repeat case_match; simplify_eq/=; done.
Qed.

Lemma call_concurrency c : keeps (agree_on indexerConcurrency) (call c).
Proof. destruct c; keeps_unfold; keeps_auto. Qed.

Lemma reachable_concurrency cfg st :
  reachable cfg st → indexerConcurrency st = uint32 (IndexerConcurrency cfg).
Proof.
  intros Hr. induction Hr as [|st c st' _ IH E]; [done|].
  pose proof (call_concurrency c st) as Hk. rewrite E in Hk. simpl in Hk.
  unfold agree_on in Hk. congruence.
Qed.

Lemma Add_nil_map request key st :
  mapToAckChan st = None →
  ∃ st', Add request key st = Fail NilDereference st'.
Proof.
  intros Hm. unfold Add, PutOrDo. exec.
  rewrite lookup_app_r, Nat.sub_diag by done. simpl. rewrite Hm. eauto.
Qed.

Lemma Add_returns request key st :
  Inv st → status st = DaemonStatusStarted → indexerConcurrency st ≠ 0 →
  ∃ st', Add request key st = Ok (length (chans st)) st'.
Proof.
  intros HI Hs Hc. destruct (Inv_started_map st HI Hs) as (m & q & Hm & Hq).
  destruct (m !! key) as [a|] eqn:Hk.
  - destruct (Inv_ticket st m key a HI Hm Hk) as (t & cs & Ha & Hch & _ & _ & Hb).
    destruct (Add_duplicate request key m a t cs st Hm Hc Hk Ha Hch Hb) as (st' & E & _).
    eauto.
  - destruct (Add_fresh request key m q st Hm Hc Hk Hq) as (st' & E & _). eauto.
Qed.

Lemma Add_ignores_status request key s st :
  Add request key (set_status s st) = map_final (set_status s) (Add request key st).
Proof.
  unfold Add, PutOrDo, hashFn, bulkProcessor_Add. exec.
  rewrite lookup_app_r, Nat.sub_diag by done. simpl.
  destruct (mapToAckChan st) as [m|] eqn:Hm; simpl; rewrite ?Hm; simpl; [|done].
  destruct (decide (indexerConcurrency st = 0)); simpl; rewrite ?Hm; simpl; [done|].
  destruct (m !! key) as [a|] eqn:Hk; simpl; rewrite ?Hk; simpl.
  - repeat (case_match; simplify_eq/=; try done).
  - destruct (bulkProcessor st); done.
Qed.


(** ** [Add] *)

(** C1.  [Add] creates a ticket holding a fresh channel of capacity 1 and
    returns that channel.  If the map holds no ticket for the key, the new
    ticket is inserted and the request is appended to the bulk processor's
    queue.  If it holds one, [done(false)] is called on the existing ticket,
    whose channel receives false; the existing ticket is overwritten in place
    with the fields of the new one, the map itself is unchanged, and the bulk
    processor's queue is unchanged.  Either way the ticket the map then holds
    for the key carries the returned channel. *)
Theorem Add_spec (request : esclient_BulkableRequest) (key : string)
    (m : gmap string nat) (st : processorImpl) :
  Inv st → mapToAckChan st = Some m → indexerConcurrency st ≠ 0 →
  let retCh := length (chans st) in
  let ackCh := length (heap st) in
  ∃ st' new,
    Add request key st = Ok retCh st'
    ∧ chans st !! retCh = None
    ∧ chans st' !! retCh = Some (mkChan 1 [] 0)
    ∧ heap st !! ackCh = None
    ∧ heap st' !! ackCh = Some new
    ∧ ackChInternal new = retCh ∧ startedAt new = 0%nat
    ∧ (∃ a, ticket_of st' key a new)
    ∧ match m !! key with
      | None =>
          mapToAckChan st' = Some (<[key := ackCh]> m)
          ∧ (∃ q, bulkProcessor st = Some q
                  ∧ bulkProcessor st' = Some (q ++ [request]))
          ∧ doneCalls st' = doneCalls st
          ∧ (∀ c, c ≠ retCh → chans st' !! c = chans st !! c)
      | Some existing =>
          mapToAckChan st' = Some m
          ∧ bulkProcessor st' = bulkProcessor st
          ∧ doneCalls st' = doneCalls st ++ [(existing, false)]
          ∧ heap st' !! existing = Some new
          ∧ (∃ old cs, heap st !! existing = Some old
                ∧ chans st !! ackChInternal old = Some cs
                ∧ chans st' !! ackChInternal old
                  = Some (mkChan (chanCap cs) (chanSent cs ++ [false]) (chanRecv cs))
                ∧ chanSent cs = []
                ∧ ∀ c, c ≠ retCh → c ≠ ackChInternal old →
                       chans st' !! c = chans st !! c)
      end.
Proof.
  intros HI Hm Hc retCh ackCh.
  assert (chans st !! retCh = None) as Hfc by (by apply lookup_ge_None).
  assert (heap st !! ackCh = None) as Hfh by (by apply lookup_ge_None).
  destruct (m !! key) as [a|] eqn:Hk.
  - destruct (Inv_ticket st m key a HI Hm Hk) as (t & cs & Ha & Hch & Hs & _ & Hb).
    pose proof (lookup_lt_Some _ _ _ Ha) as Halt.
    pose proof (lookup_lt_Some _ _ _ Hch) as Hclt.
    destruct (Add_duplicate request key m a t cs st Hm Hc Hk Ha Hch Hb) as (st' & E & Hv).
    apply view_eq in Hv. simpl in Hv.
    destruct Hv as (Hv1 & Hv2 & Hv3 & Hv4 & Hv5 & Hv6 & Hv7 & Hv8).
    exists st', (mkAckChan retCh (S (clock st)) 0).
    assert (heap st' !! a = Some (mkAckChan retCh (S (clock st)) 0)) as Hna.
    { rewrite Hv5. apply list_lookup_insert_eq. rewrite length_app. simpl. lia. }
    split; [done|]. split; [done|]. split.
    { rewrite Hv6, list_lookup_insert_ne by (subst retCh; lia).
      by rewrite lookup_app_r, Nat.sub_diag. }
    split; [done|]. split.
    { rewrite Hv5, list_lookup_insert_ne by (subst ackCh; lia).
      by rewrite lookup_app_r, Nat.sub_diag. }
    split; [done|]. split; [done|]. split.
    { exists a, m. rewrite Hv3. done. }
    split; [congruence|]. split; [done|]. split; [done|]. split; [done|].
    exists t, cs. split; [done|]. split; [done|]. split.
    { rewrite Hv6. apply list_lookup_insert_eq. rewrite length_app. simpl. lia. }
    split; [done|]. intros c Hc1 Hc2. rewrite Hv6, list_lookup_insert_ne by done.
    destruct (decide (c < length (chans st))%nat).
    + by rewrite lookup_app_l.
    + rewrite !lookup_ge_None_2; [done|lia|].
      rewrite length_app. simpl. subst retCh. lia.
  - destruct (Inv_started_map st HI (Inv_map_started st m HI Hm)) as (m' & q & Hm' & Hq).
    destruct (Add_fresh request key m q st Hm Hc Hk Hq) as (st' & E & Hv).
    apply view_eq in Hv. simpl in Hv.
    destruct Hv as (Hv1 & Hv2 & Hv3 & Hv4 & Hv5 & Hv6 & Hv7 & Hv8).
    exists st', (mkAckChan retCh (S (clock st)) 0).
    assert (heap st' !! ackCh = Some (mkAckChan retCh (S (clock st)) 0)) as Hna.
    { rewrite Hv5. by rewrite lookup_app_r, Nat.sub_diag. }
    split; [done|]. split; [done|]. split.
    { rewrite Hv6. by rewrite lookup_app_r, Nat.sub_diag. }
    split; [done|]. split; [done|]. split; [done|]. split; [done|]. split.
    { exists ackCh, (<[key := ackCh]> m). rewrite Hv3.
      split; [done|]. split; [apply lookup_insert_eq|done]. }
    split; [done|]. split; [eauto|]. split; [done|].
    intros c Hc1. rewrite Hv6.
    destruct (decide (c < length (chans st))%nat).
    + by rewrite lookup_app_l.
    + rewrite !lookup_ge_None_2; [done|lia|].
      rewrite length_app. simpl. subst retCh. lia.
Qed.

(** ** Key extraction: what is returned does not depend on the state *)

Lemma extractDocID_value request st st' :
  value (extractDocID request st) = value (extractDocID request st').
Proof. unfold extractDocID. exec. repeat case_match; done. Qed.

Lemma extractVisibilityTaskKey_value request st st' :
  value (extractVisibilityTaskKey request st)
  = value (extractVisibilityTaskKey request st').
Proof.
  unfold extractVisibilityTaskKey.
  destruct (Source request) as [req|]; [|done].
  destruct (decide (length req = 2%nat)); [|apply extractDocID_value].
  exec. repeat case_match; done.
Qed.

Lemma value_Some_Ok {A} (r : Res A) a : value r = Some a → ∃ st', r = Ok a st'.
Proof. destruct r; simpl; [|done]. intros [= ->]. eauto. Qed.

Lemma core_eq st st' :
  core st = core st' →
  status st = status st' ∧ bulkProcessor st = bulkProcessor st'
  ∧ mapToAckChan st = mapToAckChan st' ∧ indexerConcurrency st = indexerConcurrency st'
  ∧ heap st = heap st' ∧ chans st = chans st' ∧ doneCalls st = doneCalls st'.
Proof. unfold core. intros [= -> -> -> -> -> -> _ ->]. done. Qed.

Lemma extractVisibilityTaskKey_run request st k :
  value (extractVisibilityTaskKey request st) = Some k →
  ∃ st', extractVisibilityTaskKey request st = Ok k st' ∧ core st' = core st.
Proof.
  intros (st' & E)%value_Some_Ok. exists st'. split; [done|].
  pose proof (extractVisibilityTaskKey_core request st) as Hk.
  rewrite E in Hk. done.
Qed.

Lemma extractDocID_run request st d :
  value (extractDocID request st) = Some d →
  ∃ st', extractDocID request st = Ok d st' ∧ core st' = core st.
Proof.
  intros (st' & E)%value_Some_Ok. exists st'. split; [done|].
  pose proof (extractDocID_core request st) as Hk.
  rewrite E in Hk. done.
Qed.

(** The corrupted-data counter moves only when extraction yields the empty
    string. *)
Lemma extractDocID_count request st d st' :
  extractDocID request st = Ok d st' → d ≠ "" →
  cntCorruptedData (metricsClient st') = cntCorruptedData (metricsClient st).
Proof.
  unfold extractDocID. exec. intros E Hd.
  repeat case_match; simplify_eq/=; done.
Qed.

Lemma extractVisibilityTaskKey_count request st k st' :
  extractVisibilityTaskKey request st = Ok k st' → k ≠ "" →
  cntCorruptedData (metricsClient st') = cntCorruptedData (metricsClient st).
Proof.
  unfold extractVisibilityTaskKey.
  destruct (Source request) as [req|] eqn:Hs.
  - destruct (decide (length req = 2%nat)).
    + exec. intros E Hk. repeat case_match; simplify_eq/=; done.
    + apply extractDocID_count.
  - exec. intros [= <- <-] Hk. done.
Qed.

(** ** Routing an ack *)

(** What [sendToAckChan] does in a state satisfying the invariant. *)
Lemma sendToAckChan_effect key ack st m :
  Inv st → mapToAckChan st = Some m → indexerConcurrency st ≠ 0 →
  ∃ st', sendToAckChan key ack st = Ok tt st' ∧ Inv st'
    ∧ heap st' = heap st ∧ indexerConcurrency st' = indexerConcurrency st
    ∧ cntCorruptedData (metricsClient st') = cntCorruptedData (metricsClient st)
    ∧ match m !! key with
      | None =>
          mapToAckChan st' = Some m ∧ chans st' = chans st
          ∧ doneCalls st' = doneCalls st
      | Some a =>
          ∃ t cs, heap st !! a = Some t ∧ chans st !! ackChInternal t = Some cs
            ∧ chanSent cs = []
            ∧ mapToAckChan st' = Some (delete key m)
            ∧ chans st' = <[ackChInternal t := mkChan (chanCap cs) [ack] (chanRecv cs)]> (chans st)
            ∧ doneCalls st' = doneCalls st ++ [(a, ack)]
      end.
Proof.
  intros HI Hm Hc. destruct (m !! key) as [a|] eqn:Hk.
  - destruct (Inv_ticket st m key a HI Hm Hk) as (t & cs & Ha & Hch & Hs & _ & Hb).
    destruct (sendToAckChan_present key ack m a t cs st Hm Hc Hk Ha Hch Hb)
      as (st' & E & Hv).
    exists st'. split; [done|]. split.
    { eapply Inv_view; [symmetry; exact Hv|].
      by apply (Inv_done_remove st m key a t cs). }
    apply view_eq in Hv. simpl in Hv.
    destruct Hv as (Hv1 & Hv2 & Hv3 & Hv4 & Hv5 & Hv6 & Hv7 & Hv8).
    rewrite Hs in Hv6. simpl in Hv6.
    split; [done|]. split; [done|]. split; [done|].
    exists t, cs. done.
  - exists st. rewrite (sendToAckChan_absent key ack m st Hm Hc Hk). done.
Qed.

(** One round of the loop of [bulkAfterAction] over a failed batch whose
    error is not retryable. *)
Lemma bulkAfterAction_failed_effect request st m k :
  Inv st → mapToAckChan st = Some m → indexerConcurrency st ≠ 0 →
  value (extractVisibilityTaskKey request st) = Some k →
  ∃ st', bulkAfterAction_failed false request st = Ok tt st' ∧ Inv st'
    ∧ heap st' = heap st ∧ indexerConcurrency st' = indexerConcurrency st
    ∧ match (if decide (k = "") then None else m !! k) with
      | None => mapToAckChan st' = Some m ∧ chans st' = chans st
      | Some a =>
          ∃ t cs, heap st !! a = Some t ∧ chans st !! ackChInternal t = Some cs
            ∧ chanSent cs = []
            ∧ mapToAckChan st' = Some (delete k m)
            ∧ chans st' = <[ackChInternal t := mkChan (chanCap cs) [false] (chanRecv cs)]> (chans st)
      end.
Proof.
  intros HI Hm Hc Hv.
  unfold bulkAfterAction_failed, bind, logger_Error, logger_log, IncCounter,
    AddCounter, modify. simpl.
  set (st0 := set_metricsClient _ _).
  rewrite (extractVisibilityTaskKey_value request st st0) in Hv.
  destruct (extractVisibilityTaskKey_run request st0 k Hv) as (st1 & -> & Hcore).
  assert (core st1 = core st) as Hcore' by (rewrite Hcore; reflexivity).
  clear Hcore. clearbody st0.
  assert (Inv st1) as HI1 by (by apply (Inv_core st)).
  apply core_eq in Hcore'.
  destruct Hcore' as (Hc1 & Hc2 & Hc3 & Hc4 & Hc5 & Hc6 & Hc7).
  destruct (decide (k = "")) as [->|Hne].
  { simpl. exists st1. rewrite Hc3, Hc4, Hc5, Hc6. done. }
  destruct (sendToAckChan_effect k false st1 m HI1) as (st' & E & HI' & Hh & Hn & _ & Hcase);
    [congruence..|].
  exists st'. split; [done|]. split; [done|]. split; [congruence|]. split; [congruence|].
  destruct (m !! k) as [a|].
  - destruct Hcase as (t & cs & Ha & Hch & Hs & Hm' & Hch' & _).
    exists t, cs. rewrite <-Hc5, <-Hc6. done.
  - destruct Hcase as (Hm' & Hch' & _). rewrite <-Hc6. done.
Qed.

(** ** The after-commit hook on a failed batch *)

Lemma keyed_state requests st st' k : keyed requests st k → keyed requests st' k.
Proof.
  intros (Hk & r & Hr & Hv). split; [done|]. exists r. split; [done|].
  by rewrite (extractVisibilityTaskKey_value r st' st).
Qed.

Lemma keyed_cons r rs st k :
  keyed (r :: rs) st k ↔
    (k ≠ "" ∧ value (extractVisibilityTaskKey r st) = Some k) ∨ keyed rs st k.
Proof.
  unfold keyed. split.
  - intros (Hk & r' & [->|Hr]%elem_of_cons & Hv); [by left|].
    right. eauto.
  - intros [[Hk Hv]|(Hk & r' & Hr & Hv)]; (split; [done|]).
    + exists r. split; [left|done].
    + exists r'. split; [by right|done].
Qed.

(** The whole loop: every key of the batch is unmapped, the channel of every
    ticket that was mapped under such a key has carried exactly the value
    false, and nothing else in the map or among the channels has changed. *)
Lemma bulkAfterAction_failed_loop requests : ∀ st m,
  Inv st → mapToAckChan st = Some m → indexerConcurrency st ≠ 0 →
  (∀ r, r ∈ requests → is_Some (value (extractVisibilityTaskKey r st))) →
  ∃ st' m',
    forEach (bulkAfterAction_failed false) requests st = Ok tt st'
    ∧ Inv st' ∧ heap st' = heap st
    ∧ indexerConcurrency st' = indexerConcurrency st
    ∧ mapToAckChan st' = Some m'
    ∧ (∀ k a, m' !! k = Some a → m !! k = Some a)
    ∧ (∀ k, keyed requests st k → m' !! k = None)
    ∧ (∀ k, ¬ keyed requests st k → m' !! k = m !! k)
    ∧ (∀ k a t, keyed requests st k → m !! k = Some a → heap st !! a = Some t →
         ∃ cs, chans st' !! ackChInternal t = Some cs ∧ chanSent cs = [false])
    ∧ (∀ c, (∀ k a t, keyed requests st k → m !! k = Some a →
                      heap st !! a = Some t → ackChInternal t ≠ c) →
            chans st' !! c = chans st !! c).
Proof.
  induction requests as [|r rs IH]; intros st m HI Hm Hc Hall.
  { exists st, m. simpl. do 6 (split; [done|]). split; [|split; [done|split; [|done]]].
    - intros k (_ & r & Hr & _). by apply elem_of_nil in Hr.
    - intros k a t (_ & r & Hr & _). by apply elem_of_nil in Hr. }
  destruct (Hall r) as [k Hk]; [left|].
  destruct (bulkAfterAction_failed_effect r st m k HI Hm Hc Hk)
    as (st1 & E1 & HI1 & Hh1 & Hn1 & Hcase).
  assert (Hall1 : ∀ r', r' ∈ rs → is_Some (value (extractVisibilityTaskKey r' st1))).
  { intros r' Hr'. rewrite (extractVisibilityTaskKey_value r' st1 st).
    apply Hall. by right. }
  simpl. unfold bind. rewrite E1.
  destruct (if decide (k = "") then None else m !! k) as [a|] eqn:Hlk.
  - destruct (decide (k = "")) as [|Hne]; [done|].
    destruct Hcase as (t & cs & Ha & Hch & Hs & Hm1 & Hch1).
    destruct (IH st1 (delete k m) HI1 Hm1) as
      (st' & m' & E & HI' & Hh & Hn & Hm' & Hsub & Hrem & Hkeep & Hnack & Hframe);
      [congruence|done|].
    assert (Hsep : ∀ k' a' t', k' ≠ k → m !! k' = Some a' → heap st !! a' = Some t' →
              ackChInternal t' ≠ ackChInternal t).
    { intros k' a' t' Hne' Hk' Ht' Heq. apply Hne'.
      apply (inv_sep st HI k' k a' a t' t); [by exists m..|done]. }
    assert (Hkept : chans st' !! ackChInternal t
              = Some (mkChan (chanCap cs) [false] (chanRecv cs))).
    { rewrite Hframe.
      - rewrite Hch1. apply list_lookup_insert_eq. by eapply lookup_lt_Some.
      - intros k' a' t' _ [Hne' Hk']%lookup_delete_Some Ht'.
        rewrite Hh1 in Ht'. by apply (Hsep k' a' t'). }
    exists st', m'. split; [done|]. split; [done|]. split; [congruence|].
    split; [congruence|]. split; [done|]. split.
    { intros k' a' Hk'. apply Hsub in Hk'. by apply lookup_delete_Some in Hk' as [_ ?]. }
    split.
    { intros k' [[_ Hv]|Hkd]%keyed_cons.
      - assert (k' = k) as -> by congruence.
        destruct (m' !! k) as [a'|] eqn:Hk'; [|done].
        apply Hsub in Hk'. by rewrite lookup_delete_eq in Hk'.
      - apply Hrem. by apply (keyed_state rs st). }
    split.
    { intros k' Hnk. assert (k' ≠ k) as Hne'.
      { intros ->. apply Hnk. apply keyed_cons. by left. }
      rewrite Hkeep, lookup_delete_ne by
        (try done; intros Hkd; apply Hnk, keyed_cons; right; by apply (keyed_state rs st1)).
      done. }
    split.
    { intros k' a' t' Hkd Hk' Ht'. destruct (decide (k' = k)) as [->|Hne'].
      - assert (a' = a) as -> by congruence. assert (t' = t) as -> by congruence.
        eexists. split; [exact Hkept|done].
      - apply keyed_cons in Hkd as [[_ Hv]|Hkd]; [congruence|].
        apply (Hnack k' a' t'); [by apply (keyed_state rs st)| |congruence].
        by rewrite lookup_delete_ne. }
    intros c Hcfr. rewrite Hframe.
    + rewrite Hch1. apply list_lookup_insert_ne.
      apply (Hcfr k a t); [|done..]. apply keyed_cons. by left.
    + intros k' a' t' Hkd [Hne' Hk']%lookup_delete_Some Ht'.
      apply (Hcfr k' a' t'); [|done|congruence].
      apply keyed_cons. right. by apply (keyed_state rs st1).
  - destruct Hcase as (Hm1 & Hch1).
    destruct (IH st1 m HI1 Hm1) as
      (st' & m' & E & HI' & Hh & Hn & Hm' & Hsub & Hrem & Hkeep & Hnack & Hframe);
      [congruence|done|].
    exists st', m'. split; [done|]. split; [done|]. split; [congruence|].
    split; [congruence|]. split; [done|]. split; [done|]. split.
    { intros k' [[Hne Hv]|Hkd]%keyed_cons.
      - assert (k' = k) as -> by congruence.
        destruct (decide (k = "")); [done|].
        destruct (m' !! k) as [a'|] eqn:Hk'; [|done].
        apply Hsub in Hk'. congruence.
      - apply Hrem. by apply (keyed_state rs st). }
    split.
    { intros k' Hnk. apply Hkeep. intros Hkd. apply Hnk, keyed_cons. right.
      by apply (keyed_state rs st1). }
    split.
    { intros k' a' t' [[Hne Hv]|Hkd]%keyed_cons Hk' Ht'.
      - assert (k' = k) as -> by congruence.
        destruct (decide (k = "")); [done|]. congruence.
      - apply (Hnack k' a' t'); [by apply (keyed_state rs st)|done|congruence]. }
    intros c Hcfr. rewrite Hframe, Hch1; [done|].
    intros k' a' t' Hkd Hk' Ht'. apply (Hcfr k' a' t'); [|done|congruence].
    apply keyed_cons. right. by apply (keyed_state rs st1).
Qed.

Lemma bulkAfterAction_retryable_loop requests : ∀ st,
  ∃ st', forEach (bulkAfterAction_failed true) requests st = Ok tt st'
    ∧ core st' = core st
    ∧ cntCorruptedData (metricsClient st') = cntCorruptedData (metricsClient st).
Proof.
  induction requests as [|r rs IH]; intros st; simpl; [by exists st|].
  unfold bind at 1. unfold bulkAfterAction_failed. exec.
  set (st1 := set_metricsClient _ _).
  destruct (IH st1) as (st' & E & Hcore & Hcnt). exists st'.
  split; [done|]. split; [by rewrite Hcore|by rewrite Hcnt].
Qed.

(** C4.  After-commit hook, called with a whole-batch error.  If the error
    is retryable, the hook returns having changed neither the map, nor any
    ticket, nor any channel, and having called [done] on nothing.  If it is
    not retryable (and every request's key can be extracted), then afterwards
    no key of the batch is mapped, every ticket that was mapped under a key
    of the batch has had exactly the one value false sent on its channel, the
    other map entries are as before and no other channel has changed. *)
Theorem bulkAfterAction_batch_error (requests : list elastic_BulkableRequest)
    (response : option BulkResponse) (e : string) (st : processorImpl) :
  (IsRetryableError e = true →
     ∃ st', bulkAfterAction requests response (Some e) st = Ok tt st'
       ∧ mapToAckChan st' = mapToAckChan st ∧ heap st' = heap st
       ∧ chans st' = chans st ∧ doneCalls st' = doneCalls st)
  ∧ (IsRetryableError e = false →
     ∀ m, Inv st → mapToAckChan st = Some m → indexerConcurrency st ≠ 0 →
     (∀ r, r ∈ requests → is_Some (value (extractVisibilityTaskKey r st))) →
     ∃ st' m', bulkAfterAction requests response (Some e) st = Ok tt st'
       ∧ mapToAckChan st' = Some m'
       ∧ (∀ k, keyed requests st k → m' !! k = None)
       ∧ (∀ k, ¬ keyed requests st k → m' !! k = m !! k)
       ∧ (∀ k a t, keyed requests st k → ticket_of st k a t →
            ∃ cs, chans st' !! ackChInternal t = Some cs ∧ chanSent cs = [false])
       ∧ (∀ c, (∀ k a t, keyed requests st k → ticket_of st k a t →
                         ackChInternal t ≠ c) →
               chans st' !! c = chans st !! c)).
Proof.
  split.
  - intros Hre. unfold bulkAfterAction. rewrite Hre.
    unfold bind, logger_Error, logger_log, modify. simpl.
    set (st0 := set_logger _ _).
    destruct (bulkAfterAction_retryable_loop requests st0) as (st' & E & Hcore & _).
    exists st'. split; [done|]. apply core_eq in Hcore. subst st0. simpl in Hcore.
    destruct_and? Hcore. done.
  - intros Hre m HI Hm Hc Hall. unfold bulkAfterAction. rewrite Hre.
    unfold bind, logger_Error, logger_log, modify. simpl.
    set (st0 := set_logger _ _).
    assert (core st0 = core st) as Hcore by done.
    assert (Inv st0) as HI0 by (by apply (Inv_core st)).
    destruct (bulkAfterAction_failed_loop requests st0 m HI0) as
      (st' & m' & E & HI' & Hh & Hn & Hm' & Hsub & Hrem & Hkeep & Hnack & Hframe);
      [done|done| |].
    { intros r Hr. rewrite (extractVisibilityTaskKey_value r st0 st). by apply Hall. }
    exists st', m'. split; [done|]. split; [done|]. split.
    { intros k Hk. apply Hrem. by apply (keyed_state requests st). }
    split.
    { intros k Hk. apply Hkeep. intros Hk'. apply Hk.
      by apply (keyed_state requests st0). }
    split.
    { intros k a t Hk (m0 & Hm0 & Hka & Hat).
      assert (m0 = m) as -> by congruence.
      apply (Hnack k a t); [by apply (keyed_state requests st)|done..]. }
    intros c Hfr. rewrite Hframe; [done|].
    intros k a t Hk Hka Hat. apply (Hfr k a t); [by apply (keyed_state requests st0)|].
    by exists m.
Qed.

(** ** The ticket discipline *)


(** ** The after-commit hook on a batch response *)

(** C7.  A request whose extracted key is not empty and whose document id
    has no item in the response index: the hook counts one corrupted-data
    event for the missing item and routes [sendToAckChan key false], so the
    ticket mapped under the key, if any, is unmapped and its channel carries
    exactly the value false.  Extracting a non-empty key counts nothing, and
    neither does extracting a non-empty document id, so for such a request
    the counter rises by exactly one. *)
Theorem bulkAfterAction_missing_item (idx : gmap string BulkResponseItem)
    (request : elastic_BulkableRequest) (st st1 st2 : processorImpl)
    (m : gmap string nat) (key docID : string) :
  Inv st → mapToAckChan st = Some m → indexerConcurrency st ≠ 0 →
  extractVisibilityTaskKey request st = Ok key st1 → key ≠ "" →
  extractDocID request st1 = Ok docID st2 →
  idx !! docID = None →
  ∃ st',
    bulkAfterAction_item idx request st = Ok tt st'
    ∧ (∀ response rest, idx = buildResponseIndex response →
         bulkAfterAction (request :: rest) (Some response) None st
         = forEach (bulkAfterAction_item idx) rest st')
    ∧ cntCorruptedData (metricsClient st1) = cntCorruptedData (metricsClient st)
    ∧ cntCorruptedData (metricsClient st')
      = cntCorruptedData (metricsClient st2) + 1
    ∧ (docID ≠ "" →
         cntCorruptedData (metricsClient st')
         = cntCorruptedData (metricsClient st) + 1)
    ∧ (∃ st3, core st3 = core st ∧ sendToAckChan key false st3 = Ok tt st')
    ∧ (∀ a t, ticket_of st key a t →
         mapToAckChan st' = Some (delete key m)
         ∧ doneCalls st' = doneCalls st ++ [(a, false)]
         ∧ ∃ cs, chans st' !! ackChInternal t = Some cs ∧ chanSent cs = [false])
    ∧ (m !! key = None →
         mapToAckChan st' = Some m ∧ chans st' = chans st
         ∧ doneCalls st' = doneCalls st).
Proof.
  intros HI Hm Hc E1 Hkey E2 Hidx.
  pose proof (extractVisibilityTaskKey_core request st) as Hk1. rewrite E1 in Hk1.
  pose proof (extractDocID_core request st1) as Hk2. rewrite E2 in Hk2.
  simpl in Hk1, Hk2. unfold agree_on in Hk1, Hk2.
  set (st3 := set_metricsClient
         (addToCounter ElasticsearchBulkProcessorCorruptedData 1 (metricsClient st2))
         (set_logger (logger st2 ++
            [(LogError, "ES request failed. Request item doesn't have corresponding response item.")])
            st2)).
  assert (core st3 = core st) as Hcore by (rewrite Hk1, Hk2; reflexivity).
  assert (Inv st3) as HI3 by (by apply (Inv_core st)).
  pose proof Hcore as Hcore'. apply core_eq in Hcore'.
  destruct Hcore' as (Hc1 & Hc2 & Hc3 & Hc4 & Hc5 & Hc6 & Hc7).
  destruct (sendToAckChan_effect key false st3 m HI3) as
    (st' & E & HI' & Hh & Hn & Hcnt & Hcase); [congruence..|].
  assert (bulkAfterAction_item idx request st = Ok tt st') as Hitem.
  { unfold bulkAfterAction_item, bind. rewrite E1.
    destruct (decide (key = "")); [done|]. rewrite E2, Hidx.
    unfold logger_Error, logger_log, IncCounter, AddCounter, modify. simpl.
    exact E. }
  exists st'. split; [done|]. split.
  { intros response rest ->. unfold bulkAfterAction. simpl. unfold bind.
    by rewrite Hitem. }
  split; [by apply (extractVisibilityTaskKey_count request st key st1)|].
  split; [rewrite Hcnt; subst st3; simpl; done|].
  split.
  { intros Hd. rewrite Hcnt. subst st3. simpl.
    rewrite (extractDocID_count request st1 docID st2 E2 Hd).
    by rewrite (extractVisibilityTaskKey_count request st key st1 E1 Hkey). }
  split; [by exists st3|].
  split.
  - intros a t (m0 & Hm0 & Hka & Hat). assert (m0 = m) as -> by congruence.
    rewrite Hka in Hcase.
    destruct Hcase as (t' & cs & Ha' & Hch & Hs & Hm' & Hch' & Hd).
    assert (t' = t) as -> by congruence.
    split; [done|]. split; [congruence|].
    exists (mkChan (chanCap cs) [false] (chanRecv cs)). split; [|done].
    rewrite Hch'. apply list_lookup_insert_eq. by eapply lookup_lt_Some.
  - intros Hka. rewrite Hka in Hcase. destruct Hcase as (? & ? & ?).
    split; [done|]. split; congruence.
Qed.

(** ** Key extraction can fault *)

(** C8.  A two-line request whose body decodes to a map in which the field
    VisibilityTaskKey is not a string makes [extractVisibilityTaskKey] panic
    on the type assertion: it returns no key and counts nothing. *)
Theorem extractVisibilityTaskKey_non_string (request : elastic_BulkableRequest)
    (action body : string) (fields : gmap string JValue) (st : processorImpl) :
  Source request = Some [action; body] →
  json_Unmarshal_body body = Some fields →
  fields !! searchattribute_VisibilityTaskKey = Some JNonString →
  extractVisibilityTaskKey request st = Fail TypeAssertion st.
Proof.
  intros Hs Hb Hf. unfold extractVisibilityTaskKey. rewrite Hs. simpl.
  rewrite Hb, Hf. done.
Qed.

(** The other two faults of key extraction: a request with no line at all,
    and an action line whose [_id] is not a string. *)
Lemma extractVisibilityTaskKey_no_line request st :
  Source request = Some [] →
  extractVisibilityTaskKey request st = Fail IndexOutOfRange st.
Proof.
  intros Hs. unfold extractVisibilityTaskKey, extractDocID. rewrite Hs. done.
Qed.

Lemma extractDocID_non_string request action rest op opMap ops st :
  Source request = Some (action :: rest) →
  json_Unmarshal_action action = Some ((op, opMap) :: ops) →
  opMap !! "_id" = Some JNonString →
  extractDocID request st = Fail TypeAssertion st.
Proof.
  intros Hs Ha Hi. unfold extractDocID. rewrite Hs. simpl. rewrite Ha. simpl.
  destruct (decide (is_Some (opMap !! "_id"))) as [_|Hn].
  - simpl. rewrite Hi. done.
  - exfalso. apply Hn. eauto.
Qed.

(** Where extraction does return: every line it decodes holds strings in
    the fields it reads, and there is a first line to read when it needs
    one. *)
Lemma extractVisibilityTaskKey_returns request action body fields k st :
  Source request = Some [action; body] →
  json_Unmarshal_body body = Some fields →
  fields !! searchattribute_VisibilityTaskKey = Some (JString k) →
  extractVisibilityTaskKey request st = Ok k st.
Proof.
  intros Hs Hb Hf. unfold extractVisibilityTaskKey. rewrite Hs. simpl.
  rewrite Hb, Hf. done.
Qed.

(** Every outcome of key extraction: it returns, or panics on a type
    assertion or on indexing an empty slice, and then leaves the state as
    it is. *)
Lemma extractVisibilityTaskKey_outcome request st :
  (∃ k st', extractVisibilityTaskKey request st = Ok k st')
  ∨ extractVisibilityTaskKey request st = Fail TypeAssertion st
  ∨ extractVisibilityTaskKey request st = Fail IndexOutOfRange st.
Proof.
  unfold extractVisibilityTaskKey, extractDocID. exec.
  repeat case_match; eauto.
Qed.

(** ** Superseding a request *)

(** The round trip of a superseded request: when the map holds a ticket for
    the key, a second [Add] followed by the routing of an ack for that key
    leaves the value false on the channel of the first request, the ack on
    the channel the second [Add] returned, and the key unmapped. *)
Theorem Add_then_ack (request : esclient_BulkableRequest) (key : string)
    (ack : bool) (a : nat) (t : ackChan) (st : processorImpl) :
  Inv st → ticket_of st key a t → indexerConcurrency st ≠ 0 →
  ∃ retCh st1 st2 first second,
    Add request key st = Ok retCh st1
    ∧ sendToAckChan key ack st1 = Ok tt st2
    ∧ retCh ≠ ackChInternal t
    ∧ chans st2 !! ackChInternal t = Some first ∧ chanSent first = [false]
    ∧ chans st2 !! retCh = Some second ∧ chanSent second = [ack]
    ∧ (∃ m, mapToAckChan st2 = Some m ∧ m !! key = None).
Proof.
  intros HI (m & Hm & Hk & Ha) Hc.
  destruct (Inv_ticket st m key a HI Hm Hk) as (t' & cs & Ha' & Hch & Hs & Hcap & Hb).
  assert (t' = t) as -> by congruence.
  pose proof (lookup_lt_Some _ _ _ Ha) as Halt.
  pose proof (lookup_lt_Some _ _ _ Hch) as Hclt.
  destruct (Add_duplicate request key m a t cs st Hm Hc Hk Ha Hch Hb) as (st1 & E1 & Hv).
  assert (Inv st1) as HI1.
  { eapply Inv_view; [symmetry; exact Hv|].
    by apply (Inv_Add_duplicate st m key a t cs). }
  apply view_eq in Hv. simpl in Hv.
  destruct Hv as (Hv1 & Hv2 & Hv3 & Hv4 & Hv5 & Hv6 & Hv7 & Hv8).
  destruct (sendToAckChan_effect key ack st1 m HI1) as
    (st2 & E2 & _ & _ & _ & _ & Hcase); [congruence..|].
  rewrite Hk in Hcase. destruct Hcase as (t1 & cs1 & Ha1 & Hch1 & Hs1 & Hm2 & Hch2 & _).
  assert (t1 = mkAckChan (length (chans st)) (S (clock st)) 0) as ->.
  { rewrite Hv5, list_lookup_insert_eq in Ha1 by (rewrite length_app; simpl; lia).
    congruence. }
  simpl in *.
  exists (length (chans st)), st1, st2,
    (mkChan (chanCap cs) (chanSent cs ++ [false]) (chanRecv cs)),
    (mkChan (chanCap cs1) [ack] (chanRecv cs1)).
  split; [done|]. split; [done|]. split; [lia|]. split.
  { rewrite Hch2, list_lookup_insert_ne by lia.
    rewrite Hv6. apply list_lookup_insert_eq. rewrite length_app. simpl. lia. }
  split; [by rewrite Hs|]. split.
  { rewrite Hch2. apply list_lookup_insert_eq. by eapply lookup_lt_Some. }
  split; [done|]. exists (delete key m). split; [done|apply lookup_delete_eq].
Qed.

(** ** Runs *)

Lemma reachable_calls cfg cs : ∀ st st',
  reachable cfg st → calls cs st = Ok tt st' → reachable cfg st'.
Proof.
  induction cs as [|c cs IH]; intros st st' Hr E; simpl in E.
  - by injection E as <-.
  - unfold calls in E. simpl in E. unfold bind in E.
    destruct (call c st) as [[] st1|] eqn:E1; [|done].
    apply (IH st1 st'); [|exact E]. by apply (reachable_call cfg st c st1).
Qed.

Lemma reachable_final cfg cs :
  value (calls cs (NewProcessor cfg)) = Some tt →
  reachable cfg (final (calls cs (NewProcessor cfg))).
Proof.
  intros Hv. destruct (calls cs (NewProcessor cfg)) as [[] st'|] eqn:E; [|done].
  simpl. apply (reachable_calls cfg cs (NewProcessor cfg) st'); [|done].
  apply reachable_new.
Qed.

(** * Further properties *)

(** ** The stripe modulus over a processor's life *)

(** The stripe modulus is fixed at construction, as the configured value
    truncated to 32 bits, and no call changes it.  When the truncation is
    zero, hashing a string key panics in every state the processor reaches;
    otherwise it returns a stripe below the truncated value. *)
Theorem hashFn_reachable (cfg : ProcessorConfig) (st : processorImpl) (id : string) :
  reachable cfg st →
  indexerConcurrency st = IndexerConcurrency cfg mod 2 ^ 32
  ∧ (IndexerConcurrency cfg mod 2 ^ 32 = 0 →
       hashFn (KeyString id) st = Fail DivideByZero st)
  ∧ (IndexerConcurrency cfg mod 2 ^ 32 ≠ 0 →
       ∃ i, hashFn (KeyString id) st = Ok i st
            ∧ 0 ≤ i < IndexerConcurrency cfg mod 2 ^ 32)
  ∧ (0 ≤ IndexerConcurrency cfg < 2 ^ 32 →
       indexerConcurrency st = IndexerConcurrency cfg).
Proof.
  intros Hr. pose proof (reachable_concurrency cfg st Hr) as Hn.
  unfold uint32 in Hn. split; [done|].
  unfold hashFn, bind, gets, panic, ret. simpl. rewrite Hn.
  split; [|split].
  - intros H0. rewrite H0. done.
  - intros H0. destruct (decide (IndexerConcurrency cfg `mod` 2 ^ 32 = 0)); [done|].
    eexists. split; [done|]. apply Z.mod_pos_bound.
    pose proof (Z.mod_pos_bound (IndexerConcurrency cfg) (2 ^ 32)). lia.
  - intros Hb. by apply Z.mod_small.
Qed.

(** ** Which of several items with one id the index keeps *)

Lemma first_greatest_snoc_old items i item x :
  first_greatest items i item →
  (Id x = Id item → Status x ≤ Status item) →
  first_greatest (items ++ [x]) i item.
Proof.
  intros [Hi Hall] Hx. pose proof (lookup_lt_Some _ _ _ Hi) as Hlt. split.
  - by apply lookup_app_l_Some.
  - intros j item' [Hj|[-> ->]]%snoc_lookup_Some Hid; [by apply Hall|].
    split; [by apply Hx|lia].
Qed.

Lemma first_greatest_snoc_new items x :
  (∀ j item', items !! j = Some item' → Id item' = Id x → Status item' < Status x) →
  first_greatest (items ++ [x]) (length items) x.
Proof.
  intros Hall. split.
  - by rewrite lookup_app_r, Nat.sub_diag.
  - intros j item' [Hj|[-> ->]]%snoc_lookup_Some Hid.
    + specialize (Hall j item' Hj Hid). split; [lia|done].
    + split; [lia|lia].
Qed.

Lemma index_first_foldl items id item :
  foldl buildResponseIndex_step ∅ items !! id = Some item →
  Id item = id ∧ ∃ i, first_greatest items i item.
Proof.
  revert id item. induction items as [|x items IH] using rev_ind; intros id item.
  - simpl. by rewrite lookup_empty.
  - rewrite foldl_app. simpl.
    pose proof (index_of_foldl items) as [_ Hdom].
    set (idx := foldl buildResponseIndex_step ∅ items) in *.
    unfold buildResponseIndex_step.
    destruct (idx !! Id x) as [old|] eqn:Hold.
    + destruct (IH _ _ Hold) as (Hido & io & Hfo).
      destruct (decide (Status old < Status x)) as [Hlt|Hge].
      * destruct (decide (id = Id x)) as [->|Hne].
        -- rewrite lookup_insert_eq. intros [= <-]. split; [done|].
           exists (length items). apply first_greatest_snoc_new.
           intros j item' Hj Hid. destruct Hfo as [_ Hfo].
           destruct (Hfo j item' Hj) as [Hle _]; [congruence|lia].
        -- rewrite lookup_insert_ne by done. intros Hl.
           destruct (IH _ _ Hl) as (Hid & i & Hf). split; [done|].
           exists i. apply first_greatest_snoc_old; [done|]. congruence.
      * intros Hl. destruct (IH _ _ Hl) as (Hid & i & Hf). split; [done|].
        exists i. apply first_greatest_snoc_old; [done|].
        intros Hx. assert (item = old) as -> by congruence. lia.
    + destruct (decide (id = Id x)) as [->|Hne].
      * rewrite lookup_insert_eq. intros [= <-]. split; [done|].
        exists (length items). apply first_greatest_snoc_new.
        intros j item' Hj Hid.
        destruct (Hdom item') as [y Hy]; [by eapply list_elem_of_lookup_2|].
        congruence.
      * rewrite lookup_insert_ne by done. intros Hl.
        destruct (IH _ _ Hl) as (Hid & i & Hf). split; [done|].
        exists i. apply first_greatest_snoc_old; [done|]. congruence.
Qed.

(** Among the items of a response that share a document id, the index keeps
    the first of those with the greatest status: a later item replaces the
    kept one only when its status is strictly greater.  An id that no item
    carries is not in the index; in particular the index of a response
    without items is empty. *)
Theorem buildResponseIndex_first_greatest (response : BulkResponse) (id : string) :
  match buildResponseIndex response !! id with
  | Some item =>
      Id item = id ∧ ∃ i, first_greatest (responseItems response) i item
  | None => ∀ item, item ∈ responseItems response → Id item ≠ id
  end.
Proof.
  rewrite buildResponseIndex_flat.
  destruct (foldl buildResponseIndex_step ∅ (responseItems response) !! id)
    as [item|] eqn:Hl.
  - by apply index_first_foldl.
  - intros item Hin <-.
    destruct (index_of_foldl (responseItems response)) as [_ Hdom].
    destruct (Hdom item Hin) as [y Hy]. congruence.
Qed.

(** ** The after-commit hook on a batch response: one request *)

Lemma sendToAckChan_counters key ack : keeps (agree_on counters) (sendToAckChan key ack).
Proof. keeps_unfold. keeps_auto. Qed.

Lemma extractVisibilityTaskKey_other_counters request :
  keeps (agree_on other_counters) (extractVisibilityTaskKey request).
Proof. keeps_unfold. keeps_auto. Qed.

Lemma extractDocID_other_counters request :
  keeps (agree_on other_counters) (extractDocID request).
Proof. keeps_unfold. keeps_auto. Qed.

(** Routing an ack from a state that differs from [st] in the logger and
    the metrics only. *)
Lemma sendToAckChan_from key ack st st0 m :
  Inv st → core st0 = core st → mapToAckChan st = Some m →
  indexerConcurrency st ≠ 0 → key ≠ "" →
  ∃ st', sendToAckChan key ack st0 = Ok tt st' ∧ Inv st'
    ∧ heap st' = heap st ∧ indexerConcurrency st' = indexerConcurrency st
    ∧ counters st' = counters st0
    ∧ match m !! key with
      | None =>
          mapToAckChan st' = Some m ∧ chans st' = chans st
          ∧ doneCalls st' = doneCalls st
      | Some a =>
          ∃ t cs, heap st !! a = Some t ∧ chans st !! ackChInternal t = Some cs
            ∧ chanSent cs = []
            ∧ mapToAckChan st' = Some (delete key m)
            ∧ chans st' = <[ackChInternal t := mkChan (chanCap cs) [ack] (chanRecv cs)]> (chans st)
            ∧ doneCalls st' = doneCalls st ++ [(a, ack)]
      end.
Proof.
  intros HI Hcore Hm Hc Hk.
  assert (Inv st0) as HI0 by (by apply (Inv_core st)).
  apply core_eq in Hcore. destruct Hcore as (Hc1 & Hc2 & Hc3 & Hc4 & Hc5 & Hc6 & Hc7).
  destruct (sendToAckChan_effect key ack st0 m HI0) as
    (st' & E & HI' & Hh & Hn & _ & Hcase); [congruence..|].
  exists st'. split; [done|]. split; [done|]. split; [congruence|].
  split; [congruence|]. split.
  { pose proof (sendToAckChan_counters key ack st0) as Hk'. rewrite E in Hk'.
    symmetry. exact Hk'. }
  rewrite Hc5, Hc6, Hc7 in Hcase. exact Hcase.
Qed.

Lemma routed_of_case key ack m st st' :
  key ≠ "" →
  match m !! key with
  | None =>
      mapToAckChan st' = Some m ∧ chans st' = chans st
      ∧ doneCalls st' = doneCalls st
  | Some a =>
      ∃ t cs, heap st !! a = Some t ∧ chans st !! ackChInternal t = Some cs
        ∧ chanSent cs = []
        ∧ mapToAckChan st' = Some (delete key m)
        ∧ chans st' = <[ackChInternal t := mkChan (chanCap cs) [ack] (chanRecv cs)]> (chans st)
        ∧ doneCalls st' = doneCalls st ++ [(a, ack)]
  end →
  routed key m st st'.
Proof.
  intros Hk Hcase. destruct (m !! key) as [a|] eqn:Hl; [|by left].
  right. split; [done|]. destruct Hcase as (t & cs & ?). exists a, t, cs, ack. done.
Qed.

(** A request with a non-empty key whose document id has an item in the
    response index.  A successful item routes the ack true; a failed item
    whose status is not retryable counts one failure and routes the ack
    false; a failed item whose status is retryable counts one retry and
    routes nothing: the ticket stays mapped and no channel is touched.
    Success is tested first, so a successful status is acked even if the
    retry classifier would accept it. *)
Theorem bulkAfterAction_item_classified (idx : gmap string BulkResponseItem)
    (request : elastic_BulkableRequest) (st st1 st2 : processorImpl)
    (m : gmap string nat) (key docID : string) (item : BulkResponseItem) :
  Inv st → mapToAckChan st = Some m → indexerConcurrency st ≠ 0 →
  extractVisibilityTaskKey request st = Ok key st1 → key ≠ "" →
  extractDocID request st1 = Ok docID st2 →
  idx !! docID = Some item →
  ∃ st',
    bulkAfterAction_item idx request st = Ok tt st'
    ∧ cntFailures (metricsClient st') = cntFailures (metricsClient st)
        + (if isSuccess item then 0
           else if IsRetryableStatus (Status item) then 0 else 1)
    ∧ cntRetries (metricsClient st') = cntRetries (metricsClient st)
        + (if isSuccess item then 0
           else if IsRetryableStatus (Status item) then 1 else 0)
    ∧ if negb (isSuccess item) && IsRetryableStatus (Status item)
      then mapToAckChan st' = Some m ∧ chans st' = chans st
           ∧ heap st' = heap st ∧ doneCalls st' = doneCalls st
      else
        (∀ a t, ticket_of st key a t →
           mapToAckChan st' = Some (delete key m)
           ∧ doneCalls st' = doneCalls st ++ [(a, isSuccess item)]
           ∧ ∃ cs, chans st' !! ackChInternal t = Some cs
                   ∧ chanSent cs = [isSuccess item])
        ∧ (m !! key = None →
             mapToAckChan st' = Some m ∧ chans st' = chans st
             ∧ doneCalls st' = doneCalls st).
Proof.
  intros HI Hm Hc E1 Hkey E2 Hidx.
  pose proof (extractVisibilityTaskKey_core request st) as Hk1. rewrite E1 in Hk1.
  pose proof (extractDocID_core request st1) as Hk2. rewrite E2 in Hk2.
  pose proof (extractVisibilityTaskKey_other_counters request st) as Ho1.
  rewrite E1 in Ho1.
  pose proof (extractDocID_other_counters request st1) as Ho2. rewrite E2 in Ho2.
  simpl in Hk1, Hk2, Ho1, Ho2. unfold agree_on in Hk1, Hk2, Ho1, Ho2.
  assert (core st2 = core st) as Hcore by congruence.
  assert (other_counters st2 = other_counters st) as Hoc by congruence.
  unfold other_counters in Hoc. injection Hoc as Hq Hf Hr.
  assert (Hroute : ∀ (ack : bool) st0, core st0 = core st →
    cntFailures (metricsClient st0) = cntFailures (metricsClient st)
      + (if ack then 0 else 1) →
    cntRetries (metricsClient st0) = cntRetries (metricsClient st) →
    ∃ st', sendToAckChan key ack st0 = Ok tt st'
      ∧ cntFailures (metricsClient st') = cntFailures (metricsClient st)
          + (if ack then 0 else 1)
      ∧ cntRetries (metricsClient st') = cntRetries (metricsClient st)
      ∧ (∀ a t, ticket_of st key a t →
           mapToAckChan st' = Some (delete key m)
           ∧ doneCalls st' = doneCalls st ++ [(a, ack)]
           ∧ ∃ cs, chans st' !! ackChInternal t = Some cs ∧ chanSent cs = [ack])
      ∧ (m !! key = None →
           mapToAckChan st' = Some m ∧ chans st' = chans st
           ∧ doneCalls st' = doneCalls st)).
  { intros ack st0 Hc0 Hf0 Hr0.
    destruct (sendToAckChan_from key ack st st0 m HI Hc0 Hm Hc Hkey)
      as (st' & E & _ & _ & _ & Hcnt & Hcase).
    unfold counters in Hcnt. injection Hcnt as _ Hf' _ Hr'.
    exists st'. split; [done|]. split; [congruence|]. split; [congruence|].
    split.
    - intros a t (m0 & Hm0 & Hka & Hat). assert (m0 = m) as -> by congruence.
      rewrite Hka in Hcase.
      destruct Hcase as (t' & cs & Ha' & Hch & Hs & Hm' & Hch' & Hd).
      assert (t' = t) as -> by congruence.
      split; [done|]. split; [done|].
      exists (mkChan (chanCap cs) [ack] (chanRecv cs)). split; [|done].
      rewrite Hch'. apply list_lookup_insert_eq. by eapply lookup_lt_Some.
    - intros Hka. by rewrite Hka in Hcase. }
  unfold bulkAfterAction_item, bind. rewrite E1.
  destruct (decide (key = "")); [done|]. rewrite E2, Hidx.
  destruct (isSuccess item) eqn:Hsucc; simpl.
  - destruct (Hroute true st2 Hcore) as (st' & E & Hf' & Hr' & Ht & Hn);
      [lia|done|].
    exists st'. split; [done|]. split; [done|]. split; [lia|]. done.
  - destruct (IsRetryableStatus (Status item)) eqn:Hretry; simpl.
    + unfold logger_Warn, logger_log, IncCounter, AddCounter, modify. simpl.
      eexists. split; [done|]. simpl. split; [lia|]. split; [lia|].
      apply core_eq in Hcore. destruct_and? Hcore. simpl.
      split; [congruence|]. split; [done|]. split; done.
    + unfold logger_Error, logger_log, IncCounter, AddCounter, modify. simpl.
      set (st3 := set_metricsClient _ _).
      destruct (Hroute false st3) as (st' & E & Hf' & Hr' & Ht & Hn);
        [subst st3; rewrite <-Hcore; reflexivity|subst st3; simpl; lia
        |subst st3; simpl; done|].
      exists st'. split; [done|]. split; [done|]. split; [lia|]. done.
Qed.

(** ** The after-commit hook on a batch response: the whole batch *)

Lemma bulkAfterAction_item_effect idx request st m k :
  Inv st → mapToAckChan st = Some m → indexerConcurrency st ≠ 0 →
  value (extractVisibilityTaskKey request st) = Some k →
  (k ≠ "" → is_Some (value (extractDocID request st))) →
  ∃ st', bulkAfterAction_item idx request st = Ok tt st' ∧ Inv st'
    ∧ heap st' = heap st ∧ indexerConcurrency st' = indexerConcurrency st
    ∧ routed k m st st'.
Proof.
  intros HI Hm Hc Hv Hd.
  destruct (extractVisibilityTaskKey_run request st k Hv) as (st1 & E1 & Hcore1).
  unfold bulkAfterAction_item, bind. rewrite E1.
  assert (Hsame : ∀ st0, core st0 = core st →
            Inv st0 ∧ heap st0 = heap st
            ∧ indexerConcurrency st0 = indexerConcurrency st ∧ routed k m st st0).
  { intros st0 Hc0. split; [by apply (Inv_core st)|].
    apply core_eq in Hc0. destruct_and? Hc0.
    split; [done|]. split; [done|]. left. split; [congruence|]. done. }
  destruct (decide (k = "")) as [->|Hne].
  { exists st1. split; [done|]. by apply Hsame. }
  destruct (Hd Hne) as [d Hdv].
  rewrite (extractDocID_value request st st1) in Hdv.
  destruct (extractDocID_run request st1 d Hdv) as (st2 & E2 & Hcore2).
  rewrite E2. assert (core st2 = core st) as Hcore by congruence.
  assert (Hroute : ∀ ack st0, core st0 = core st →
            ∃ st', sendToAckChan k ack st0 = Ok tt st' ∧ Inv st'
              ∧ heap st' = heap st
              ∧ indexerConcurrency st' = indexerConcurrency st
              ∧ routed k m st st').
  { intros ack st0 Hc0.
    destruct (sendToAckChan_from k ack st st0 m HI Hc0 Hm Hc Hne)
      as (st' & E & HI' & Hh & Hn & _ & Hcase).
    exists st'. split; [done|]. split; [done|]. split; [done|]. split; [done|].
    by apply (routed_of_case k ack). }
  destruct (idx !! d) as [item|].
  - destruct (isSuccess item); [by apply Hroute|].
    destruct (negb (IsRetryableStatus (Status item))).
    + unfold logger_Error, logger_log, IncCounter, AddCounter, modify. simpl.
      apply Hroute. rewrite <-Hcore. reflexivity.
    + unfold logger_Warn, logger_log, IncCounter, AddCounter, modify. simpl.
      eexists. split; [done|]. apply Hsame. rewrite <-Hcore. reflexivity.
  - unfold logger_Error, logger_log, IncCounter, AddCounter, modify. simpl.
    apply Hroute. rewrite <-Hcore. reflexivity.
Qed.

Lemma extractable_state request st st' : extractable request st → extractable request st'.
Proof.
  intros (k & Hk & Hd). exists k.
  rewrite (extractVisibilityTaskKey_value request st' st).
  rewrite (extractDocID_value request st' st). done.
Qed.

(** The loop over a batch response: the map only loses entries, and only
    under keys of the batch; a ticket still mapped has its channel as
    before; a ticket no longer mapped has had exactly one value sent on its
    channel; a channel held by no mapped ticket is as before. *)
Lemma bulkAfterAction_item_loop idx requests : ∀ st m,
  Inv st → mapToAckChan st = Some m → indexerConcurrency st ≠ 0 →
  (∀ r, r ∈ requests → extractable r st) →
  ∃ st' m',
    forEach (bulkAfterAction_item idx) requests st = Ok tt st'
    ∧ Inv st' ∧ heap st' = heap st
    ∧ indexerConcurrency st' = indexerConcurrency st
    ∧ mapToAckChan st' = Some m'
    ∧ (∀ k a, m' !! k = Some a → m !! k = Some a)
    ∧ (∀ k, ¬ keyed requests st k → m' !! k = m !! k)
    ∧ (∀ c, (∀ k a t, m !! k = Some a → heap st !! a = Some t →
                      ackChInternal t ≠ c) →
            chans st' !! c = chans st !! c)
    ∧ (∀ k a t, m' !! k = Some a → heap st !! a = Some t →
         chans st' !! ackChInternal t = chans st !! ackChInternal t)
    ∧ (∀ k a t, m !! k = Some a → heap st !! a = Some t → m' !! k = None →
         ∃ cs ack, chans st' !! ackChInternal t = Some cs ∧ chanSent cs = [ack]).
Proof.
  induction requests as [|r rs IH]; intros st m HI Hm Hc Hall.
  { exists st, m. simpl. do 8 (split; [done|]). split; [done|].
    intros k a t Hk _ Hn. congruence. }
  destruct (Hall r) as (k & Hk & Hd); [left|].
  destruct (bulkAfterAction_item_effect idx r st m k HI Hm Hc Hk Hd)
    as (st1 & E1 & HI1 & Hh1 & Hn1 & Hcase).
  assert (Hall1 : ∀ r', r' ∈ rs → extractable r' st1).
  { intros r' Hr'. apply (extractable_state r' st). apply Hall. by right. }
  simpl. unfold bind. rewrite E1.
  destruct Hcase as [(Hm1 & Hch1 & _)|(Hne & a & t & cs & ack & Hka & Ha & Hch & Hs & Hm1 & Hch1 & _)].
  - destruct (IH st1 m HI1 Hm1) as
      (st' & m' & E & HI' & Hh & Hn & Hm' & Hsub & Hkeep & Hfr & Hstill & Hgone);
      [congruence|done|].
    exists st', m'. split; [done|]. split; [done|]. split; [congruence|].
    split; [congruence|]. split; [done|]. split; [done|]. split.
    { intros k' Hnk. apply Hkeep. intros Hkd. apply Hnk, keyed_cons. right.
      by apply (keyed_state rs st1). }
    split.
    { intros c Hcfr. rewrite Hfr, Hch1; [done|].
      intros k' a' t' Hk' Ht'. apply (Hcfr k' a' t'); [done|congruence]. }
    split.
    { intros k' a' t' Hk' Ht'. rewrite <-Hch1. apply (Hstill k' a' t'); [done|congruence]. }
    intros k' a' t' Hk' Ht' Hn'. rewrite <-Hh1 in Ht'. by apply (Hgone k' a' t').
  - destruct (IH st1 (delete k m) HI1 Hm1) as
      (st' & m' & E & HI' & Hh & Hn & Hm' & Hsub & Hkeep & Hfr & Hstill & Hgone);
      [congruence|done|].
    assert (Hsep : ∀ k' a' t', k' ≠ k → m !! k' = Some a' → heap st !! a' = Some t' →
              ackChInternal t' ≠ ackChInternal t).
    { intros k' a' t' Hne' Hk' Ht' Heq. apply Hne'.
      apply (inv_sep st HI k' k a' a t' t); [by exists m..|done]. }
    assert (Hkept : chans st' !! ackChInternal t
              = Some (mkChan (chanCap cs) [ack] (chanRecv cs))).
    { rewrite Hfr.
      - rewrite Hch1. apply list_lookup_insert_eq. by eapply lookup_lt_Some.
      - intros k' a' t' [Hne' Hk']%lookup_delete_Some Ht'.
        rewrite Hh1 in Ht'. by apply (Hsep k' a' t'). }
    exists st', m'. split; [done|]. split; [done|]. split; [congruence|].
    split; [congruence|]. split; [done|]. split.
    { intros k' a' Hk'. apply Hsub in Hk'. by apply lookup_delete_Some in Hk' as [_ ?]. }
    split.
    { intros k' Hnk. assert (k' ≠ k) as Hne'.
      { intros ->. apply Hnk. apply keyed_cons. by left. }
      rewrite Hkeep, lookup_delete_ne by
        (try done; intros Hkd; apply Hnk, keyed_cons; right; by apply (keyed_state rs st1)).
      done. }
    split.
    { intros c Hcfr. rewrite Hfr.
      - rewrite Hch1. apply list_lookup_insert_ne. by apply (Hcfr k a t).
      - intros k' a' t' [Hne' Hk']%lookup_delete_Some Ht'.
        apply (Hcfr k' a' t'); [done|congruence]. }
    split.
    { intros k' a' t' Hk' Ht'. pose proof (Hsub _ _ Hk') as Hk1.
      apply lookup_delete_Some in Hk1 as [Hne' Hk1].
      rewrite (Hstill k' a' t'); [|done|congruence].
      rewrite Hch1. apply list_lookup_insert_ne.
      intros Heq. by apply (Hsep k' a' t'). }
    intros k' a' t' Hk' Ht' Hn'. destruct (decide (k' = k)) as [->|Hne'].
    + assert (a' = a) as -> by congruence. assert (t' = t) as -> by congruence.
      eexists _, ack. split; [exact Hkept|done].
    + apply (Hgone k' a' t'); [by rewrite lookup_delete_ne|congruence|done].
Qed.

(** The after-commit hook, called with a batch response, touches only the
    tickets mapped under the keys of the batch: no entry is added, an entry
    under any other key stays, a ticket that stays mapped has nothing sent
    on its channel, a ticket that is unmapped has exactly one value sent on
    its channel, and a channel that no mapped ticket holds is left alone. *)
Theorem bulkAfterAction_response_frame (requests : list elastic_BulkableRequest)
    (response : BulkResponse) (st : processorImpl) (m : gmap string nat) :
  Inv st → mapToAckChan st = Some m → indexerConcurrency st ≠ 0 →
  (∀ r, r ∈ requests → extractable r st) →
  ∃ st' m',
    bulkAfterAction requests (Some response) None st = Ok tt st'
    ∧ mapToAckChan st' = Some m' ∧ heap st' = heap st
    ∧ (∀ k a, m' !! k = Some a → m !! k = Some a)
    ∧ (∀ k, ¬ keyed requests st k → m' !! k = m !! k)
    ∧ (∀ k a t, ticket_of st k a t →
         (m' !! k = Some a
          ∧ chans st' !! ackChInternal t = chans st !! ackChInternal t)
         ∨ (m' !! k = None ∧ keyed requests st k
            ∧ ∃ cs ack, chans st' !! ackChInternal t = Some cs
                        ∧ chanSent cs = [ack]))
    ∧ (∀ c, (∀ k a t, ticket_of st k a t → ackChInternal t ≠ c) →
            chans st' !! c = chans st !! c).
Proof.
  intros HI Hm Hc Hall. unfold bulkAfterAction.
  destruct (bulkAfterAction_item_loop (buildResponseIndex response) requests st m
              HI Hm Hc Hall) as
    (st' & m' & E & HI' & Hh & Hn & Hm' & Hsub & Hkeep & Hfr & Hstill & Hgone).
  exists st', m'. split; [done|]. split; [done|]. split; [done|].
  split; [done|]. split; [done|]. split.
  - intros k a t (m0 & Hm0 & Hka & Hat). assert (m0 = m) as -> by congruence.
    destruct (m' !! k) as [a'|] eqn:Hk'.
    + left. pose proof (Hsub _ _ Hk') as Hk1.
      assert (a' = a) as -> by congruence. split; [done|].
      by apply (Hstill k a t).
    + right. split; [done|]. split; [|by apply (Hgone k a t)].
      destruct (decide (k = "")) as [->|Hne].
      * exfalso. assert (m' !! "" = m !! "") as Hsame.
        { apply Hkeep. intros [Hk _]. done. }
        congruence.
      * split; [done|].
        assert (¬ ¬ keyed requests st k) as Hnn.
        { intros Hnk. apply Hkeep in Hnk. congruence. }
        clear -Hnn Hne. unfold keyed in *.
        induction requests as [|r rs IH].
        { exfalso. apply Hnn. intros (_ & r & Hr & _). by apply elem_of_nil in Hr. }
        destruct (value (extractVisibilityTaskKey r st)) as [k'|] eqn:Hv.
        -- destruct (decide (k' = k)) as [->|Hne'].
           ++ exists r. split; [left|done].
           ++ destruct IH as (r' & Hr' & Hv').
              { intros Hnk. apply Hnn. intros (_ & r' & [->|Hr']%elem_of_cons & Hv').
                - congruence.
                - apply Hnk. split; [done|]. eauto. }
              exists r'. split; [by right|done].
        -- destruct IH as (r' & Hr' & Hv').
           { intros Hnk. apply Hnn. intros (_ & r' & [->|Hr']%elem_of_cons & Hv').
             - congruence.
             - apply Hnk. split; [done|]. eauto. }
           exists r'. split; [by right|done].
  - intros c Hcfr. apply Hfr. intros k a t Hka Hat.
    apply (Hcfr k a t). by exists m.
Qed.

(** ** The before-commit hook *)

Lemma started_only_refl st : started_only st st.
Proof. split; [done|]. intros a t Ha. exists t. done. Qed.

Lemma started_only_trans st1 st2 st3 :
  started_only st1 st2 → started_only st2 st3 → started_only st1 st3.
Proof.
  intros [Hl1 H1] [Hl2 H2]. split; [congruence|]. intros a t Ha.
  destruct (H1 a t Ha) as (t2 & Ha2 & Hc2 & Hd2 & Hs2).
  destruct (H2 a t2 Ha2) as (t3 & Ha3 & Hc3 & Hd3 & Hs3).
  exists t3. split; [done|]. split; [congruence|]. split; [congruence|]. auto.
Qed.

Lemma started_only_store st st' a t now :
  heap st !! a = Some t → now ≠ 0%nat →
  heap st' = <[a := mkAckChan (ackChInternal t) (addedAt t) now]> (heap st) →
  started_only st st'.
Proof.
  intros Ha Hnow Hh. split; [by rewrite Hh, length_insert|].
  intros a' t' Ha'. rewrite Hh. destruct (decide (a' = a)) as [->|Hne].
  - rewrite list_lookup_insert_eq by (by eapply lookup_lt_Some).
    assert (t' = t) as -> by congruence. eexists. split; [done|]. done.
  - rewrite list_lookup_insert_ne by done. exists t'. done.
Qed.

Lemma ackChan_start_started a t st :
  heap st !! a = Some t →
  ∃ st' now, ackChan_start a st = Ok tt st' ∧ now ≠ 0%nat
    ∧ view st' = view (set_heap
        (<[a := mkAckChan (ackChInternal t) (addedAt t) now]> (heap st)) st).
Proof.
  intros Ha. exec. rewrite Ha. simpl. rewrite Ha. simpl.
  eexists _, (S (S (clock st))). split; [done|]. split; done.
Qed.

(** One round of the loop of [bulkBeforeAction]. *)
Lemma bulkBeforeAction_round request st m k :
  Inv st → mapToAckChan st = Some m → indexerConcurrency st ≠ 0 →
  value (extractVisibilityTaskKey request st) = Some k →
  ∃ st',
    (let* visibilityTaskKey := extractVisibilityTaskKey request in
     if decide (visibilityTaskKey = "") then ret tt
     else GetAndDo visibilityTaskKey (fun key ackCh => ackChan_start ackCh) >>> ret tt) st
    = Ok tt st'
    ∧ Inv st' ∧ mapToAckChan st' = Some m
    ∧ indexerConcurrency st' = indexerConcurrency st
    ∧ match (if decide (k = "") then None else m !! k) with
      | None => heap st' = heap st
      | Some a =>
          ∃ t now, heap st !! a = Some t ∧ now ≠ 0%nat
            ∧ heap st' = <[a := mkAckChan (ackChInternal t) (addedAt t) now]> (heap st)
      end.
Proof.
  intros HI Hm Hc Hv.
  destruct (extractVisibilityTaskKey_run request st k Hv) as (st1 & E1 & Hcore).
  assert (Inv st1) as HI1 by (by apply (Inv_core st)).
  apply core_eq in Hcore. destruct Hcore as (Hc1 & Hc2 & Hc3 & Hc4 & Hc5 & Hc6 & Hc7).
  unfold bind at 1. rewrite E1.
  destruct (decide (k = "")) as [->|Hne].
  { exists st1. simpl. split; [done|]. split; [done|]. split; [congruence|]. done. }
  unfold GetAndDo, hashFn, bind, gets, panic, ret. simpl.
  rewrite Hc3, Hm. simpl. rewrite Hc4.
  destruct (decide (indexerConcurrency st = 0)); [done|]. simpl.
  rewrite Hc3, Hm. destruct (m !! k) as [a|] eqn:Hk.
  - destruct (Inv_ticket st m k a HI Hm Hk) as (t & cs & Ha & _).
    destruct (ackChan_start_started a t st1) as (st2 & now & E2 & Hnow & Hview);
      [congruence|].
    rewrite E2. exists st2. split; [done|].
    split.
    { eapply Inv_view; [symmetry; exact Hview|].
      apply Inv_store_times; [done|congruence]. }
    apply view_eq in Hview. simpl in Hview. destruct_and? Hview.
    split; [congruence|]. split; [congruence|].
    exists t, now. split; [done|]. split; [done|]. congruence.
  - exists st1. split; [done|]. split; [done|]. split; [congruence|]. done.
Qed.

Lemma bulkBeforeAction_loop requests : ∀ st m,
  Inv st → mapToAckChan st = Some m → indexerConcurrency st ≠ 0 →
  (∀ r, r ∈ requests → is_Some (value (extractVisibilityTaskKey r st))) →
  ∃ st',
    forEach (fun request =>
      let* visibilityTaskKey := extractVisibilityTaskKey request in
      if decide (visibilityTaskKey = "") then ret tt
      else GetAndDo visibilityTaskKey (fun key ackCh => ackChan_start ackCh) >>> ret tt)
      requests st = Ok tt st'
    ∧ Inv st' ∧ started_only st st'
    ∧ (∀ k a, keyed requests st k → m !! k = Some a →
         ∃ t', heap st' !! a = Some t' ∧ startedAt t' ≠ 0%nat)
    ∧ (∀ a, (∀ k, keyed requests st k → m !! k ≠ Some a) →
            heap st' !! a = heap st !! a).
Proof.
  induction requests as [|r rs IH]; intros st m HI Hm Hc Hall.
  { exists st. simpl. split; [done|]. split; [done|].
    split; [apply started_only_refl|]. split; [|done].
    intros k a (_ & r & Hr & _). by apply elem_of_nil in Hr. }
  destruct (Hall r) as [k Hk]; [left|].
  destruct (bulkBeforeAction_round r st m k HI Hm Hc Hk)
    as (st1 & E1 & HI1 & Hm1 & Hn1 & Hcase).
  assert (Hall1 : ∀ r', r' ∈ rs →
            is_Some (value (extractVisibilityTaskKey r' st1))).
  { intros r' Hr'. rewrite (extractVisibilityTaskKey_value r' st1 st).
    apply Hall. by right. }
  destruct (IH st1 m HI1 Hm1) as (st' & E & HI' & Hso & Hst & Hun);
    [congruence|done|].
  exists st'. split.
  { cbn [forEach]. unfold bind at 1. rewrite E1. exact E. }
  split; [done|].
  destruct (if decide (k = "") then None else m !! k) as [a|] eqn:Hlk.
  - destruct (decide (k = "")) as [|Hne]; [done|].
    destruct Hcase as (t & now & Ha & Hnow & Hh1).
    assert (started_only st st1) as Hso1
      by (by apply (started_only_store st st1 a t now)).
    split; [by apply (started_only_trans st st1 st')|]. split.
    + intros k' a' [[_ Hv]|Hkd]%keyed_cons Hk'.
      * assert (k' = k) as -> by congruence. assert (a' = a) as -> by congruence.
        destruct Hso as [_ Hso].
        destruct (Hso a (mkAckChan (ackChInternal t) (addedAt t) now))
          as (t' & Ht' & _ & _ & Hs').
        { rewrite Hh1. apply list_lookup_insert_eq. by eapply lookup_lt_Some. }
        exists t'. split; [done|]. by apply Hs'.
      * apply (Hst k' a'); [by apply (keyed_state rs st)|done].
    + intros a' Hun'. rewrite Hun.
      * rewrite Hh1. apply list_lookup_insert_ne. intros ->.
        apply (Hun' k); [|done]. apply keyed_cons. by left.
      * intros k' Hkd. apply Hun'. apply keyed_cons. right.
        by apply (keyed_state rs st1).
  - assert (started_only st st1) as Hso1.
    { split; [by rewrite Hcase|]. intros a t Ha. exists t. rewrite Hcase. done. }
    split; [by apply (started_only_trans st st1 st')|]. split.
    + intros k' a' [[Hne Hv]|Hkd]%keyed_cons Hk'.
      * assert (k' = k) as -> by congruence.
        destruct (decide (k = "")); [done|]. congruence.
      * apply (Hst k' a'); [by apply (keyed_state rs st)|done].
    + intros a' Hun'. rewrite Hun, Hcase; [done|].
      intros k' Hkd. apply Hun'. apply keyed_cons. right.
      by apply (keyed_state rs st1).
Qed.

Lemma bulkBeforeAction_frame requests :
  keeps (agree_on (fun st => (mapToAckChan st, chans st, doneCalls st,
                              bulkProcessor st, status st)))
    (bulkBeforeAction requests).
Proof. keeps_unfold. keeps_auto. Qed.

Lemma bulkBeforeAction_loop_requests requests :
  keeps (agree_on (fun st => cntRequests (metricsClient st)))
    (forEach (fun request =>
      let* visibilityTaskKey := extractVisibilityTaskKey request in
      if decide (visibilityTaskKey = "") then ret tt
      else GetAndDo visibilityTaskKey (fun key ackCh => ackChan_start ackCh) >>> ret tt)
      requests).
Proof. keeps_unfold. keeps_auto. Qed.

(** The before-commit hook adds the size of the batch to the request
    counter and marks as started the ticket mapped under each key of the
    batch.  It sends nothing and unmaps nothing: the map, the channels and
    the bulk processor's queue are as before, every ticket keeps its channel
    and its [addedAt], and a ticket mapped under no key of the batch is not
    touched at all. *)
Theorem bulkBeforeAction_effect (requests : list elastic_BulkableRequest)
    (st : processorImpl) (m : gmap string nat) :
  Inv st → mapToAckChan st = Some m → indexerConcurrency st ≠ 0 →
  (∀ r, r ∈ requests → is_Some (value (extractVisibilityTaskKey r st))) →
  ∃ st',
    bulkBeforeAction requests st = Ok tt st'
    ∧ cntRequests (metricsClient st')
      = cntRequests (metricsClient st) + Z.of_nat (length requests)
    ∧ mapToAckChan st' = Some m ∧ chans st' = chans st
    ∧ doneCalls st' = doneCalls st ∧ bulkProcessor st' = bulkProcessor st
    ∧ started_only st st'
    ∧ (∀ k a, keyed requests st k → m !! k = Some a →
         ∃ t', heap st' !! a = Some t' ∧ startedAt t' ≠ 0%nat)
    ∧ (∀ a, (∀ k, keyed requests st k → m !! k ≠ Some a) →
            heap st' !! a = heap st !! a).
Proof.
  intros HI Hm Hc Hall.
  pose proof (bulkBeforeAction_frame requests st) as Hfr.
  unfold bulkBeforeAction in *. unfold bind at 1 in Hfr. unfold bind at 1.
  unfold AddCounter at 1 in Hfr. unfold AddCounter at 1.
  unfold modify at 1 in Hfr. unfold modify at 1.
  unfold bind at 1 in Hfr. unfold bind at 1.
  unfold RecordDistribution at 1 in Hfr. unfold RecordDistribution at 1.
  unfold modify at 1 in Hfr. unfold modify at 1.
  set (st0 := set_metricsClient _ (set_metricsClient _ st)) in *.
  assert (core st0 = core st) as Hcore by done.
  assert (Inv st0) as HI0 by (by apply (Inv_core st)).
  destruct (bulkBeforeAction_loop requests st0 m HI0) as
    (st' & E & HI' & Hso & Hst & Hun); [done|done| |].
  { intros r Hr. rewrite (extractVisibilityTaskKey_value r st0 st). by apply Hall. }
  pose proof (bulkBeforeAction_loop_requests requests st0) as Hrq.
  rewrite E in Hrq, Hfr. simpl in Hrq, Hfr. unfold agree_on in Hrq, Hfr.
  injection Hfr as Hf1 Hf2 Hf3 Hf4 Hf5.
  exists st'. split; [exact E|]. split; [rewrite <-Hrq; subst st0; simpl; done|].
  split; [congruence|]. split; [done|]. split; [done|]. split; [done|].
  split; [exact Hso|]. split.
  - intros k a Hk Hka. apply (Hst k a); [by apply (keyed_state requests st)|done].
  - intros a Hun'. rewrite Hun; [done|].
    intros k Hk. apply Hun'. by apply (keyed_state requests st0).
Qed.

(** ** After [Stop] *)

#[local] Instance quiet_refl : Reflexive quiet.
Proof. intros st Hm. done. Qed.

#[local] Instance quiet_trans : Transitive quiet.
Proof.
  intros a b c Hab Hbc Hm. destruct (Hab Hm) as (Hm' & ? & ? & ? & ?).
  destruct (Hbc Hm') as (? & ? & ? & ? & ?).
  split; [done|]. split; [congruence|]. split; [congruence|].
  split; congruence.
Qed.

Lemma keeps_core_quiet {A} (m : M A) : keeps (agree_on core) m → keeps quiet m.
Proof.
  intros Hk st Hm. specialize (Hk st). unfold agree_on in Hk.
  apply core_eq in Hk. destruct_and? Hk.
  split; [congruence|]. split; [congruence|]. split; [congruence|].
  split; congruence.
Qed.

Lemma sendToAckChan_quiet key ack : keeps quiet (sendToAckChan key ack).
Proof.
  intros st Hm. unfold sendToAckChan, RemoveIf, bind, gets, panic. simpl.
  rewrite Hm. simpl. done.
Qed.

Ltac quiet_prim := apply keeps_core_quiet; keeps_auto.

Lemma bulkAfterAction_quiet requests response err :
  keeps quiet (bulkAfterAction requests response err).
Proof.
  unfold bulkAfterAction. destruct err as [e|].
  - apply keeps_bind; try tc_solve; [quiet_prim|intros _].
    apply keeps_forEach; try tc_solve. intros r. unfold bulkAfterAction_failed.
    apply keeps_bind; try tc_solve; [quiet_prim|intros _].
    apply keeps_bind; try tc_solve; [quiet_prim|intros _].
    destruct (negb (IsRetryableError e)); [|apply keeps_ret; tc_solve].
    apply keeps_bind; try tc_solve;
      [apply keeps_core_quiet, extractVisibilityTaskKey_core|intros k].
    destruct (decide (k = "")); [apply keeps_ret; tc_solve|apply sendToAckChan_quiet].
  - destruct response as [response|]; [|apply keeps_panic; tc_solve].
    apply keeps_forEach; try tc_solve. intros r. unfold bulkAfterAction_item.
    apply keeps_bind; try tc_solve;
      [apply keeps_core_quiet, extractVisibilityTaskKey_core|intros k].
    destruct (decide (k = "")); [apply keeps_ret; tc_solve|].
    apply keeps_bind; try tc_solve;
      [apply keeps_core_quiet, extractDocID_core|intros d].
    destruct (buildResponseIndex response !! d) as [item|].
    + destruct (isSuccess item); [apply sendToAckChan_quiet|].
      destruct (negb (IsRetryableStatus (Status item))).
      * apply keeps_bind; try tc_solve; [quiet_prim|intros _].
        apply keeps_bind; try tc_solve; [quiet_prim|intros _].
        apply sendToAckChan_quiet.
      * quiet_prim.
    + apply keeps_bind; try tc_solve; [quiet_prim|intros _].
      apply keeps_bind; try tc_solve; [quiet_prim|intros _].
      apply sendToAckChan_quiet.
Qed.

(** A call that returns on a stopped processor leaves it stopped and
    without a map, and sends nothing. *)
Lemma stopped_call c st st' :
  status st = DaemonStatusStopped → mapToAckChan st = None →
  call c st = Ok tt st' →
  status st' = DaemonStatusStopped ∧ mapToAckChan st' = None
  ∧ doneCalls st' = doneCalls st
  ∧ chanSent <$> chans st' = chanSent <$> chans st.
Proof.
  intros Hs Hm E. destruct c as [runErr|stopErr|request key|requests|requests response err|c];
    simpl in E.
  - unfold Start, CompareAndSwapStatus, bind in E. rewrite Hs in E. simpl in E.
    by injection E as <-.
  - unfold Stop, CompareAndSwapStatus, bind in E. rewrite Hs in E. simpl in E.
    by injection E as <-.
  - unfold bind in E. destruct (Add_nil_map request key st Hm) as (st1 & E1).
    rewrite E1 in E. done.
  - pose proof (bulkBeforeAction_frame requests st) as Hfr. rewrite E in Hfr.
    simpl in Hfr. unfold agree_on in Hfr. injection Hfr as Hf1 Hf2 Hf3 Hf4 Hf5.
    split; [congruence|]. split; [congruence|]. split; [congruence|]. congruence.
  - pose proof (bulkAfterAction_quiet requests response err st) as Hq.
    pose proof (bulkAfterAction_status requests response err st) as Hst.
    rewrite E in Hq, Hst. simpl in Hq, Hst. unfold agree_on in Hst.
    destruct (Hq Hm) as (Hm' & _ & Hd & Hc & _).
    split; [congruence|]. done.
  - unfold bind, chan_recv in E. destruct (chans st !! c) as [cs|] eqn:Hc; [|done].
    destruct (chanSent cs !! chanRecv cs); [|done]. injection E as <-. simpl.
    split; [done|]. split; [done|]. split; [done|].
    rewrite list_fmap_insert. simpl. apply list_insert_id.
    by rewrite list_lookup_fmap, Hc.
Qed.


(** ** What reaches the bulk processor *)

Lemma hooks_engine_queue requests response err :
  keeps (agree_on bulkProcessor) (bulkAfterAction requests response err).
Proof. keeps_unfold. keeps_auto. Qed.

(** The queue of the bulk processor changes in three ways only: [Start] on
    an initialized processor creates it empty, [Stop] on a started one
    drops it, and an [Add] under a key that is not mapped appends its
    request.  An [Add] under a mapped key and the two hooks never touch
    it. *)
Theorem call_engine_queue (c : Call) (st st' : processorImpl) :
  Inv st → call c st = Ok tt st' →
  bulkProcessor st' = bulkProcessor st
  ∨ (∃ runErr, c = CallStart runErr ∧ status st = DaemonStatusInitialized
       ∧ bulkProcessor st = None ∧ bulkProcessor st' = Some [])
  ∨ (∃ stopErr, c = CallStop stopErr ∧ status st = DaemonStatusStarted
       ∧ bulkProcessor st' = None)
  ∨ (∃ request key m q, c = CallAdd request key
       ∧ mapToAckChan st = Some m ∧ m !! key = None
       ∧ bulkProcessor st = Some q ∧ bulkProcessor st' = Some (q ++ [request])).
Proof.
  intros HI E. destruct c as [runErr|stopErr|request key|requests|requests response err|c];
    simpl in E.
  - unfold Start, CompareAndSwapStatus, logger_Fatal in E. exec_in E.
    pose proof (inv_life st HI) as Hl.
    destruct (decide (status st = DaemonStatusInitialized)) as [Hs|Hs]; simpl in E.
    + destruct runErr; simpl in E; [done|]. injection E as <-.
      right. left. exists false. rewrite Hs in Hl. simpl in Hl.
      destruct Hl as [_ Hb]. done.
    + injection E as <-. by left.
  - unfold Stop, CompareAndSwapStatus, logger_Fatal in E. exec_in E.
    destruct (decide (status st = DaemonStatusStarted)) as [Hs|Hs]; simpl in E.
    + destruct (bulkProcessor st); [|done].
      destruct stopErr; simpl in E; [done|]. injection E as <-.
      right. right. left. exists false. done.
    + injection E as <-. by left.
  - unfold bind in E. destruct (Add request key st) as [ch st1|] eqn:EA; [|done].
    injection E as <-.
    destruct (mapToAckChan st) as [m|] eqn:Hm.
    + assert (indexerConcurrency st ≠ 0) as Hc.
      { intros H0. unfold Add, PutOrDo, hashFn in EA. exec_in EA.
        rewrite lookup_app_r, Nat.sub_diag in EA by done. simpl in EA.
        rewrite Hm in EA. simpl in EA.
        by destruct (decide (indexerConcurrency st = 0)). }
      destruct (m !! key) as [a|] eqn:Hk.
      * destruct (Inv_ticket st m key a HI Hm Hk) as (t & cs & Ha & Hch & _ & _ & Hb).
        destruct (Add_duplicate request key m a t cs st Hm Hc Hk Ha Hch Hb)
          as (st2 & E2 & Hv).
        assert (st2 = st1) as -> by congruence.
        apply view_eq in Hv. simpl in Hv. destruct_and? Hv. by left.
      * destruct (Inv_started_map st HI (Inv_map_started st m HI Hm))
          as (m' & q & Hm' & Hq).
        destruct (Add_fresh request key m q st Hm Hc Hk Hq) as (st2 & E2 & Hv).
        assert (st2 = st1) as -> by congruence.
        apply view_eq in Hv. simpl in Hv. destruct_and? Hv.
        right. right. right. exists request, key, m, q. done.
    + destruct (Add_nil_map request key st Hm) as (st2 & E2). congruence.
  - pose proof (bulkBeforeAction_frame requests st) as Hfr. rewrite E in Hfr.
    simpl in Hfr. unfold agree_on in Hfr. injection Hfr as _ _ _ Hb _. left. done.
  - pose proof (hooks_engine_queue requests response err st) as Hfr.
    rewrite E in Hfr. left. symmetry. exact Hfr.
  - unfold bind, chan_recv in E. destruct (chans st !! c) as [cs|]; [|done].
    destruct (chanSent cs !! chanRecv cs); [|done]. injection E as <-. by left.
Qed.

(** ** From [Add] to the producer *)


(** ** What key extraction counts *)

(** Key extraction touches nothing but the logger and the corrupted-data
    counter.  It raises the counter by one when it gives up, and then the
    key it returns is empty; when it returns a key that is not empty it has
    counted nothing.  The same holds of the extraction of the document id,
    which is also what a request of other than two lines gets as its key. *)
Theorem extraction_counts (request : elastic_BulkableRequest)
    (st st' : processorImpl) (k : string) :
  extractVisibilityTaskKey request st = Ok k st' →
  core st' = core st ∧ other_counters st' = other_counters st
  ∧ (cntCorruptedData (metricsClient st') = cntCorruptedData (metricsClient st)
     ∨ (cntCorruptedData (metricsClient st')
        = cntCorruptedData (metricsClient st) + 1 ∧ k = ""))
  ∧ (∀ req, Source request = Some req → length req ≠ 2%nat →
       extractDocID request st = Ok k st').
Proof.
  intros E.
  pose proof (extractVisibilityTaskKey_core request st) as Hc.
  pose proof (extractVisibilityTaskKey_other_counters request st) as Ho.
  rewrite E in Hc, Ho. simpl in Hc, Ho. unfold agree_on in Hc, Ho.
  split; [done|]. split; [done|]. split.
  - revert E. unfold extractVisibilityTaskKey, extractDocID. exec.
    intros E. repeat case_match; simplify_eq/=; auto.
  - intros req Hs Hl. revert E. unfold extractVisibilityTaskKey. rewrite Hs.
    destruct (decide (length req = 2%nat)); done.
Qed.
End Processor.

(** * The SQL shard store *)

Section ShardStoreProperties.
Context {D E B : Type} `{!sqlplugin_DB D} `{!persistence_api E B}.

Ltac store_leaf :=
  repeat match goal with
         | |- _ ∧ _ => split
         | |- _ ↔ _ => split
         | |- ∀ _, _ => intro
         end;
  repeat match goal with
         | H : _ ∧ _ |- _ => destruct H
         | H : ∃ _, _ |- _ => destruct H
         end;
  simplify_eq/=; try done; try congruence; eauto.

Lemma lockShard_with_cases lock verb shardID oldRangeID (db : D) :
  snd (lockShard_with lock verb shardID oldRangeID db) = snd (lock shardID db)
  ∧ match fst (lock shardID db) with
    | inl rangeID =>
        if decide (rangeID = oldRangeID)
        then fst (lockShard_with lock verb shardID oldRangeID db) = None
        else ∃ msg, fst (lockShard_with lock verb shardID oldRangeID db)
                    = Some (ShardOwnershipLostError shardID msg)
    | inr _ =>
        ∃ msg, fst (lockShard_with lock verb shardID oldRangeID db)
               = Some (serviceerror_Internal msg)
    end.
Proof.
  unfold lockShard_with. destruct (lock shardID db) as [[rangeID|err] db']; simpl.
  - destruct (decide (rangeID = oldRangeID)); simpl; eauto.
  - destruct err; simpl; eauto.
Qed.

(** The update of a shard is fenced by the range id.  The function run in
    the transaction succeeds exactly when the write lock reports the range
    id the caller gave as previous and the update then affects exactly one
    row.  When the lock reports any other range id the caller learns that
    it lost the shard, and when the lock fails, that the store failed; in
    both cases the transaction is left where the lock left it: no update
    has been made. *)
Theorem UpdateShard_tx_fenced (request : InternalUpdateShardRequest E)
    (info : DataBlob E) (tx : D) :
  update_ShardInfo request = Some info →
  let lk := WriteLockShards (update_ShardID request) tx in
  let row := mkShardsRow (update_ShardID request) (update_RangeID request)
               (blob_Data info) (EncodingType_String (blob_EncodingType info)) in
  (fst (UpdateShard_tx request tx) = Returned None ↔
     fst lk = inl (update_PreviousRangeID request)
     ∧ ∃ res, fst (UpdateShards row (snd lk)) = inl res
              ∧ RowsAffected res = inl 1)
  ∧ (fst lk = inl (update_PreviousRangeID request) →
       snd (UpdateShard_tx request tx) = snd (UpdateShards row (snd lk)))
  ∧ (∀ rangeID, fst lk = inl rangeID →
       rangeID ≠ update_PreviousRangeID request →
       ∃ msg, UpdateShard_tx request tx
              = (Returned (Some (ShardOwnershipLostError (update_ShardID request) msg)),
                 snd lk))
  ∧ (∀ err, fst lk = inr err →
       ∃ msg, UpdateShard_tx request tx
              = (Returned (Some (serviceerror_Internal msg)), snd lk)).
Proof.
  intros Hinfo lk row. unfold UpdateShard_tx, lockShard.
  pose proof (lockShard_with_cases WriteLockShards "update" (update_ShardID request)
                (update_PreviousRangeID request) tx) as [Hsnd Hfst].
  fold lk in Hsnd, Hfst.
  destruct (lockShard_with WriteLockShards "update" (update_ShardID request)
              (update_PreviousRangeID request) tx) as [e tx1].
  simpl in Hsnd, Hfst. subst tx1. rewrite Hinfo. fold row.
  destruct (fst lk) as [rangeID|err] eqn:Hlk.
  - destruct (decide (rangeID = update_PreviousRangeID request)) as [->|Hne].
    + subst e. destruct (UpdateShards row (snd lk)) as [[res|err] tx2]; simpl.
      * destruct (RowsAffected res) as [n|err] eqn:Hra; simpl.
        -- destruct (decide (n = 1)) as [->|Hn]; simpl; store_leaf.
        -- store_leaf.
      * store_leaf.
    + destruct Hfst as [msg ->]. simpl. store_leaf.
  - destruct Hfst as [msg ->]. simpl. store_leaf.
Qed.


End ShardStoreProperties.

(** * The properties on sample runs *)

Local Notation run := (calls sample_Hash32 sample_Unmarshal_body
  sample_Unmarshal_action sample_IsRetryableError sample_IsRetryableStatus).
Local Notation sample_reachable := (reachable sample_Hash32 sample_Unmarshal_body
  sample_Unmarshal_action sample_IsRetryableError sample_IsRetryableStatus
  sample_config).

Lemma sample_run_reachable cs :
  value (run cs (NewProcessor sample_config)) = Some tt →
  sample_reachable (final (run cs (NewProcessor sample_config))).
Proof. apply reachable_final. Qed.

Lemma sample_run_Inv cs :
  value (run cs (NewProcessor sample_config)) = Some tt →
  Inv (final (run cs (NewProcessor sample_config))).
Proof.
  intros Hv. eapply reachable_Inv. apply sample_run_reachable. exact Hv.
Qed.

(** A second [Add] under the key K of a started processor that already
    holds a ticket for K. *)
Lemma Add_spec_witness :
  let st0 := final (run [CallStart false; CallAdd sample_add "K"]
                        (NewProcessor sample_config)) in
  Inv st0 ∧ mapToAckChan st0 = Some {[ "K" := 0%nat ]} ∧ indexerConcurrency st0 ≠ 0
  ∧ ∃ st' new,
      Add sample_Hash32 sample_add "K" st0 = Ok 1%nat st'
      ∧ heap st' !! 0%nat = Some new ∧ ackChInternal new = 1%nat
      ∧ mapToAckChan st' = Some {[ "K" := 0%nat ]}
      ∧ doneCalls st' = [(0%nat, false)]
      ∧ chans st' !! 0%nat = Some (mkChan 1 [false] 0)
      ∧ chans st' !! 1%nat = Some (mkChan 1 [] 0)
      ∧ bulkProcessor st' = Some [sample_add].
Proof.
  intros st0.
  assert (Inv st0) as HI by (apply sample_run_Inv; vm_compute; reflexivity).
  assert (mapToAckChan st0 = Some {[ "K" := 0%nat ]}) as Hm by (vm_compute; reflexivity).
  assert (indexerConcurrency st0 ≠ 0) as Hc by (vm_compute; discriminate).
  split; [exact HI|]. split; [exact Hm|]. split; [exact Hc|].
  destruct (Add_spec sample_Hash32 sample_add "K" _ st0 HI Hm Hc)
    as (st' & new & E & _ & Hch & _ & Hnew & Hnc & _ & _ & Hdup).
  rewrite lookup_singleton_eq in Hdup.
  destruct Hdup as (Hm' & Hb & Hd & Hex & old & cs & Hold & Hcs & Hcs' & _ & _).
  exists st', new. split; [exact E|].
  split; [exact Hex|]. split; [exact Hnc|]. split; [exact Hm'|].
  split; [exact Hd|]. split.
  - vm_compute in Hold. injection Hold as <-. vm_compute in Hcs.
    injection Hcs as <-. exact Hcs'.
  - split; [exact Hch|]. rewrite Hb. vm_compute. reflexivity.
Defined.





(** An index request for document A and key K, committed in a batch whose
    response has no item for A. *)
Lemma bulkAfterAction_missing_item_witness :
  let st := final (run [CallStart false; CallAdd sample_add "K"]
                       (NewProcessor sample_config)) in
  Inv st ∧ mapToAckChan st = Some {[ "K" := 0%nat ]} ∧ indexerConcurrency st ≠ 0
  ∧ extractVisibilityTaskKey sample_Unmarshal_body sample_Unmarshal_action
      sample_request st = Ok "K" st
  ∧ extractDocID sample_Unmarshal_action sample_request st = Ok "A" st
  ∧ ∃ st',
      bulkAfterAction_item sample_Hash32 sample_Unmarshal_body
        sample_Unmarshal_action sample_IsRetryableStatus ∅ sample_request st
      = Ok tt st'
      ∧ cntCorruptedData (metricsClient st')
        = cntCorruptedData (metricsClient st) + 1
      ∧ mapToAckChan st' = Some (delete "K" {[ "K" := 0%nat ]})
      ∧ ∃ cs, chans st' !! 0%nat = Some cs ∧ chanSent cs = [false].
Proof.
  intros st.
  assert (Inv st) as HI by (apply sample_run_Inv; vm_compute; reflexivity).
  assert (mapToAckChan st = Some {[ "K" := 0%nat ]}) as Hm by (vm_compute; reflexivity).
  assert (indexerConcurrency st ≠ 0) as Hc by (vm_compute; discriminate).
  assert (extractVisibilityTaskKey sample_Unmarshal_body sample_Unmarshal_action
            sample_request st = Ok "K" st) as E1 by (vm_compute; reflexivity).
  assert (extractDocID sample_Unmarshal_action sample_request st = Ok "A" st) as E2
    by (vm_compute; reflexivity).
  split; [exact HI|]. split; [exact Hm|]. split; [exact Hc|].
  split; [exact E1|]. split; [exact E2|].
  destruct (bulkAfterAction_missing_item sample_Hash32 sample_Unmarshal_body
              sample_Unmarshal_action sample_IsRetryableError
              sample_IsRetryableStatus ∅ sample_request
              st st st _ "K" "A" HI Hm Hc E1 ltac:(discriminate) E2 (lookup_empty _))
    as (st' & E & _ & _ & _ & Hcnt & _ & Ht & _).
  exists st'. split; [exact E|]. split; [apply Hcnt; discriminate|].
  destruct (Ht 0%nat (mkAckChan 0 1 0)) as (Hm' & _ & Hch).
  { exists {[ "K" := 0%nat ]}. split; [exact Hm|].
    split; [apply lookup_singleton_eq|vm_compute; reflexivity]. }
  split; [exact Hm'|exact Hch].
Defined.

(** An index request whose body is the JSON text with VisibilityTaskKey 619. *)
Lemma extractVisibilityTaskKey_non_string_witness :
  Source sample_request_number = Some [sample_action; sample_body_number]
  ∧ sample_Unmarshal_body sample_body_number
    = Some {[ "VisibilityTaskKey" := JNonString ]}
  ∧ extractVisibilityTaskKey sample_Unmarshal_body sample_Unmarshal_action
      sample_request_number (NewProcessor sample_config)
    = Fail TypeAssertion (NewProcessor sample_config).
Proof.
  split; [reflexivity|]. split; [vm_compute; reflexivity|].
  apply (extractVisibilityTaskKey_non_string sample_Unmarshal_body
           sample_Unmarshal_action sample_request_number sample_action
           sample_body_number {[ "VisibilityTaskKey" := JNonString ]}).
  - reflexivity.
  - vm_compute. reflexivity.
  - apply lookup_singleton_eq.
Defined.

(** A batch of one request under key K failing with a permanent error, and
    the same batch failing with a retryable one. *)
Lemma bulkAfterAction_batch_error_witness :
  let st := final (run [CallStart false; CallAdd sample_add "K"]
                       (NewProcessor sample_config)) in
  sample_IsRetryableError "mapping" = false
  ∧ sample_IsRetryableError "timeout" = true
  ∧ (∃ st' m',
       bulkAfterAction sample_Hash32 sample_Unmarshal_body sample_Unmarshal_action
         sample_IsRetryableError sample_IsRetryableStatus
         [sample_request] None (Some "mapping") st = Ok tt st'
       ∧ mapToAckChan st' = Some m' ∧ m' !! "K" = None
       ∧ ∃ cs, chans st' !! 0%nat = Some cs ∧ chanSent cs = [false])
  ∧ (∃ st',
       bulkAfterAction sample_Hash32 sample_Unmarshal_body sample_Unmarshal_action
         sample_IsRetryableError sample_IsRetryableStatus
         [sample_request] None (Some "timeout") st = Ok tt st'
       ∧ mapToAckChan st' = mapToAckChan st ∧ chans st' = chans st).
Proof.
  intros st.
  assert (Inv st) as HI by (apply sample_run_Inv; vm_compute; reflexivity).
  assert (mapToAckChan st = Some {[ "K" := 0%nat ]}) as Hm by (vm_compute; reflexivity).
  assert (indexerConcurrency st ≠ 0) as Hc by (vm_compute; discriminate).
  assert (keyed sample_Unmarshal_body sample_Unmarshal_action [sample_request] st "K")
    as Hk.
  { split; [discriminate|]. exists sample_request.
    split; [apply list_elem_of_singleton; reflexivity|vm_compute; reflexivity]. }
  split; [reflexivity|]. split; [reflexivity|].
  destruct (bulkAfterAction_batch_error sample_Hash32 sample_Unmarshal_body
              sample_Unmarshal_action sample_IsRetryableError
              sample_IsRetryableStatus [sample_request] None "mapping" st)
    as [_ Hperm].
  destruct (bulkAfterAction_batch_error sample_Hash32 sample_Unmarshal_body
              sample_Unmarshal_action sample_IsRetryableError
              sample_IsRetryableStatus [sample_request] None "timeout" st)
    as [Hretry _].
  split.
  - destruct (Hperm eq_refl _ HI Hm Hc) as (st' & m' & E & Hm' & Hrem & _ & Hn & _).
    { intros r Hr. apply list_elem_of_singleton in Hr as ->.
      vm_compute. eexists. reflexivity. }
    exists st', m'. split; [exact E|]. split; [exact Hm'|].
    split; [apply Hrem; exact Hk|].
    apply (Hn "K" 0%nat (mkAckChan 0 1 0)); [exact Hk|].
    exists {[ "K" := 0%nat ]}. split; [exact Hm|].
    split; [apply lookup_singleton_eq|vm_compute; reflexivity].
  - destruct (Hretry eq_refl) as (st' & E & Hm' & _ & Hch & _).
    exists st'. split; [exact E|]. split; [exact Hm'|exact Hch].
Defined.

(** Two [Add]s under K, then a successful commit routed to K. *)
Lemma Add_then_ack_witness :
  let st := final (run [CallStart false; CallAdd sample_add "K"]
                       (NewProcessor sample_config)) in
  Inv st ∧ ticket_of st "K" 0%nat (mkAckChan 0 1 0) ∧ indexerConcurrency st ≠ 0
  ∧ ∃ st1 st2 first second,
      Add sample_Hash32 sample_add "K" st = Ok 1%nat st1
      ∧ sendToAckChan sample_Hash32 "K" true st1 = Ok tt st2
      ∧ chans st2 !! 0%nat = Some first ∧ chanSent first = [false]
      ∧ chans st2 !! 1%nat = Some second ∧ chanSent second = [true].
Proof.
  intros st.
  assert (Inv st) as HI by (apply sample_run_Inv; vm_compute; reflexivity).
  assert (ticket_of st "K" 0%nat (mkAckChan 0 1 0)) as Ht.
  { exists {[ "K" := 0%nat ]}. split; [vm_compute; reflexivity|].
    split; [apply lookup_singleton_eq|vm_compute; reflexivity]. }
  assert (indexerConcurrency st ≠ 0) as Hc by (vm_compute; discriminate).
  split; [exact HI|]. split; [exact Ht|]. split; [exact Hc|].
  destruct (Add_then_ack sample_Hash32 sample_add "K" true 0%nat _ st HI Ht Hc)
    as (retCh & st1 & st2 & first & second & E1 & E2 & _ & H1 & H2 & H3 & H4 & _).
  assert (retCh = 1%nat) as ->.
  { destruct (Add_returns sample_Hash32 sample_add "K" st HI) as (st' & E');
      [vm_compute; reflexivity|exact Hc|].
    rewrite E' in E1. injection E1 as <- _. vm_compute. reflexivity. }
  exists st1, st2, first, second. simpl in H1.
  repeat split; assumption.
Defined.

(** A processor built with the concurrency 2^32, which truncates to 0. *)
Lemma hashFn_reachable_witness :
  let cfg := mkConfig (2 ^ 32) in
  let st := final (calls sample_Hash32 sample_Unmarshal_body sample_Unmarshal_action
                     sample_IsRetryableError sample_IsRetryableStatus
                     [CallStart false] (NewProcessor cfg)) in
  reachable sample_Hash32 sample_Unmarshal_body sample_Unmarshal_action
    sample_IsRetryableError sample_IsRetryableStatus cfg st
  ∧ status st = DaemonStatusStarted
  ∧ hashFn sample_Hash32 (KeyString "K") st = Fail DivideByZero st.
Proof.
  intros cfg st.
  assert (reachable sample_Hash32 sample_Unmarshal_body sample_Unmarshal_action
            sample_IsRetryableError sample_IsRetryableStatus cfg st) as Hr.
  { apply reachable_final. vm_compute. reflexivity. }
  split; [exact Hr|]. split; [vm_compute; reflexivity|].
  destruct (hashFn_reachable sample_Hash32 sample_Unmarshal_body
              sample_Unmarshal_action sample_IsRetryableError
              sample_IsRetryableStatus cfg st "K" Hr) as (_ & H0 & _).
  apply H0. vm_compute. reflexivity.
Defined.

(** The index request for document A under key K, answered with the
    retryable status 429. *)
Lemma bulkAfterAction_item_classified_witness :
  let st := final (run [CallStart false; CallAdd sample_add "K"]
                       (NewProcessor sample_config)) in
  Inv st ∧ mapToAckChan st = Some {[ "K" := 0%nat ]} ∧ indexerConcurrency st ≠ 0
  ∧ extractVisibilityTaskKey sample_Unmarshal_body sample_Unmarshal_action
      sample_request st = Ok "K" st
  ∧ extractDocID sample_Unmarshal_action sample_request st = Ok "A" st
  ∧ ∃ st',
      bulkAfterAction_item sample_Hash32 sample_Unmarshal_body
        sample_Unmarshal_action sample_IsRetryableStatus
        {[ "A" := mkItem "A" 429 None ]} sample_request st = Ok tt st'
      ∧ mapToAckChan st' = Some {[ "K" := 0%nat ]} ∧ chans st' = chans st
      ∧ cntRetries (metricsClient st') = cntRetries (metricsClient st) + 1
      ∧ cntFailures (metricsClient st') = cntFailures (metricsClient st).
Proof.
  intros st.
  assert (Inv st) as HI by (apply sample_run_Inv; vm_compute; reflexivity).
  assert (mapToAckChan st = Some {[ "K" := 0%nat ]}) as Hm by (vm_compute; reflexivity).
  assert (indexerConcurrency st ≠ 0) as Hc by (vm_compute; discriminate).
  assert (extractVisibilityTaskKey sample_Unmarshal_body sample_Unmarshal_action
            sample_request st = Ok "K" st) as E1 by (vm_compute; reflexivity).
  assert (extractDocID sample_Unmarshal_action sample_request st = Ok "A" st) as E2
    by (vm_compute; reflexivity).
  split; [exact HI|]. split; [exact Hm|]. split; [exact Hc|].
  split; [exact E1|]. split; [exact E2|].
  destruct (bulkAfterAction_item_classified sample_Hash32 sample_Unmarshal_body
              sample_Unmarshal_action sample_IsRetryableStatus
              {[ "A" := mkItem "A" 429 None ]} sample_request st st st
              {[ "K" := 0%nat ]} "K" "A" (mkItem "A" 429 None) HI Hm Hc E1
              ltac:(discriminate) E2 (lookup_singleton_eq _ _))
    as (st' & E & Hf & Hr & Hcase).
  assert (isSuccess (mkItem "A" 429 None) = false) as Hs by (vm_compute; reflexivity).
  assert (sample_IsRetryableStatus 429 = true) as Hy by (vm_compute; reflexivity).
  simpl Status in *. rewrite Hs, Hy in Hf, Hr, Hcase. simpl in Hcase.
  destruct Hcase as (Hm' & Hch' & _).
  exists st'. split; [exact E|]. split; [exact Hm'|]. split; [exact Hch'|].
  split; [exact Hr|]. rewrite Hf. apply Z.add_0_r.
Defined.

(** Tickets under K and L; the batch holds the request of K only and the
    response acknowledges it. *)
Lemma bulkAfterAction_response_frame_witness :
  let st := final (run [CallStart false; CallAdd sample_add "K";
                        CallAdd sample_add "L"]
                       (NewProcessor sample_config)) in
  let m : gmap string nat := <[ "L" := 1%nat ]> {[ "K" := 0%nat ]} in
  Inv st ∧ mapToAckChan st = Some m ∧ indexerConcurrency st ≠ 0
  ∧ (∀ r, r ∈ [sample_request] →
       extractable sample_Unmarshal_body sample_Unmarshal_action r st)
  ∧ ∃ st' m',
      bulkAfterAction sample_Hash32 sample_Unmarshal_body sample_Unmarshal_action
        sample_IsRetryableError sample_IsRetryableStatus
        [sample_request] (Some (sample_response 201)) None st = Ok tt st'
      ∧ mapToAckChan st' = Some m'
      ∧ m' !! "L" = Some 1%nat
      ∧ chans st' !! 1%nat = chans st !! 1%nat.
Proof.
  intros st m.
  assert (Inv st) as HI by (apply sample_run_Inv; vm_compute; reflexivity).
  assert (mapToAckChan st = Some m) as Hm by (vm_compute; reflexivity).
  assert (indexerConcurrency st ≠ 0) as Hc by (vm_compute; discriminate).
  assert (∀ r, r ∈ [sample_request] →
            extractable sample_Unmarshal_body sample_Unmarshal_action r st) as Hex.
  { intros r Hr. apply list_elem_of_singleton in Hr as ->. exists "K".
    split; [vm_compute; reflexivity|]. intros _. vm_compute. eexists. reflexivity. }
  assert (¬ keyed sample_Unmarshal_body sample_Unmarshal_action
              [sample_request] st "L") as Hnk.
  { intros (_ & r & Hr & Hv). apply list_elem_of_singleton in Hr as ->.
    vm_compute in Hv. discriminate Hv. }
  assert (ticket_of st "L" 1%nat (mkAckChan 1 2 0)) as Ht.
  { exists m. split; [exact Hm|]. split; [apply lookup_insert_eq|vm_compute; reflexivity]. }
  split; [exact HI|]. split; [exact Hm|]. split; [exact Hc|]. split; [exact Hex|].
  destruct (bulkAfterAction_response_frame sample_Hash32 sample_Unmarshal_body
              sample_Unmarshal_action sample_IsRetryableError
              sample_IsRetryableStatus [sample_request] (sample_response 201)
              st m HI Hm Hc Hex)
    as (st' & m' & E & Hm' & _ & _ & _ & Hdich & _).
  exists st', m'. split; [exact E|]. split; [exact Hm'|].
  destruct (Hdich _ _ _ Ht) as [[Hl Hch]|(_ & Hk & _)].
  - split; [exact Hl|exact Hch].
  - destruct (Hnk Hk).
Defined.

(** The before-commit hook on the batch holding the request of K. *)
Lemma bulkBeforeAction_effect_witness :
  let st := final (run [CallStart false; CallAdd sample_add "K"]
                       (NewProcessor sample_config)) in
  Inv st ∧ mapToAckChan st = Some {[ "K" := 0%nat ]} ∧ indexerConcurrency st ≠ 0
  ∧ ∃ st',
      bulkBeforeAction sample_Hash32 sample_Unmarshal_body sample_Unmarshal_action
        [sample_request] st = Ok tt st'
      ∧ cntRequests (metricsClient st') = cntRequests (metricsClient st) + 1
      ∧ chans st' = chans st
      ∧ ∃ t', heap st' !! 0%nat = Some t' ∧ startedAt t' ≠ 0%nat.
Proof.
  intros st.
  assert (Inv st) as HI by (apply sample_run_Inv; vm_compute; reflexivity).
  assert (mapToAckChan st = Some {[ "K" := 0%nat ]}) as Hm by (vm_compute; reflexivity).
  assert (indexerConcurrency st ≠ 0) as Hc by (vm_compute; discriminate).
  assert (keyed sample_Unmarshal_body sample_Unmarshal_action [sample_request] st "K")
    as Hk.
  { split; [discriminate|]. exists sample_request.
    split; [apply list_elem_of_singleton; reflexivity|vm_compute; reflexivity]. }
  split; [exact HI|]. split; [exact Hm|]. split; [exact Hc|].
  destruct (bulkBeforeAction_effect sample_Hash32 sample_Unmarshal_body
              sample_Unmarshal_action [sample_request] st _ HI Hm Hc)
    as (st' & E & Hq & _ & Hch & _ & _ & _ & Hst & _).
  { intros r Hr. apply list_elem_of_singleton in Hr as ->.
    vm_compute. eexists. reflexivity. }
  exists st'. split; [exact E|]. split; [exact Hq|]. split; [exact Hch|].
  apply (Hst "K" 0%nat Hk). apply lookup_singleton_eq.
Defined.


(** A second [Add] under the mapped key K. *)
Lemma call_engine_queue_witness :
  let st := final (run [CallStart false; CallAdd sample_add "K"]
                       (NewProcessor sample_config)) in
  let st' := final (run [CallStart false; CallAdd sample_add "K";
                         CallAdd sample_add "K"]
                        (NewProcessor sample_config)) in
  Inv st
  ∧ call sample_Hash32 sample_Unmarshal_body sample_Unmarshal_action
      sample_IsRetryableError sample_IsRetryableStatus
      (CallAdd sample_add "K") st = Ok tt st'
  ∧ bulkProcessor st' = bulkProcessor st.
Proof.
  intros st st'.
  assert (Inv st) as HI by (apply sample_run_Inv; vm_compute; reflexivity).
  assert (call sample_Hash32 sample_Unmarshal_body sample_Unmarshal_action
            sample_IsRetryableError sample_IsRetryableStatus
            (CallAdd sample_add "K") st = Ok tt st') as E
    by (vm_compute; reflexivity).
  split; [exact HI|]. split; [exact E|].
  destruct (call_engine_queue sample_Hash32 sample_Unmarshal_body
              sample_Unmarshal_action sample_IsRetryableError
              sample_IsRetryableStatus (CallAdd sample_add "K") st st' HI E)
    as [Hq|[(e & Hc & _)|[(e & Hc & _)|(r & k & m & q & Hc & Hm & Hk & _)]]].
  - exact Hq.
  - discriminate Hc.
  - discriminate Hc.
  - injection Hc as <- <-. vm_compute in Hm. injection Hm as <-.
    vm_compute in Hk. discriminate Hk.
Defined.

(** Shard 7 stored with range id 3: an update from 3 to 4, and one that
    claims the previous range id 2. *)
Lemma UpdateShard_tx_fenced_witness :
  let t : gmap Z ShardsRow := {[ 7 := sample_row 3 ]} in
  update_ShardInfo (sample_update 3 4) = Some (mkDataBlob [] "Proto3")
  ∧ fst (UpdateShard_tx (sample_update 3 4) t) = Returned None
  ∧ snd (UpdateShard_tx (sample_update 3 4) t) = {[ 7 := sample_row 4 ]}
  ∧ ∃ msg, UpdateShard_tx (sample_update 2 4) t
           = (Returned (Some (ShardOwnershipLostError 7 msg)), t).
Proof.
  intros t. split; [reflexivity|].
  destruct (UpdateShard_tx_fenced (sample_update 3 4) (mkDataBlob [] "Proto3") t eq_refl)
    as (Hiff & Hsnd & _).
  destruct (UpdateShard_tx_fenced (sample_update 2 4) (mkDataBlob [] "Proto3") t eq_refl)
    as (_ & _ & Hlost & _).
  split.
  { apply Hiff. split; [vm_compute; reflexivity|].
    exists (mkSqlResult (inl 1)). split; vm_compute; reflexivity. }
  split.
  { rewrite Hsnd by (vm_compute; reflexivity). vm_compute. reflexivity. }
  destruct (Hlost 3) as [msg Hmsg]; [vm_compute; reflexivity|discriminate|].
  exists msg. exact Hmsg.
Defined.



(** A request whose [Source()] fails. *)
Lemma extraction_counts_witness :
  let st := NewProcessor sample_config in
  let st' := final (extractVisibilityTaskKey sample_Unmarshal_body
                      sample_Unmarshal_action (mkRequest None) st) in
  extractVisibilityTaskKey sample_Unmarshal_body sample_Unmarshal_action
    (mkRequest None) st = Ok "" st'
  ∧ cntCorruptedData (metricsClient st') = 1
  ∧ core st' = core st ∧ other_counters st' = other_counters st.
Proof.
  intros st st'.
  assert (extractVisibilityTaskKey sample_Unmarshal_body sample_Unmarshal_action
            (mkRequest None) st = Ok "" st') as E by (vm_compute; reflexivity).
  split; [exact E|]. split; [vm_compute; reflexivity|].
  destruct (extraction_counts sample_Unmarshal_body sample_Unmarshal_action
              (mkRequest None) st st' "" E) as (Hc & Ho & _).
  split; [exact Hc|exact Ho].
Defined.
